(** * CollabConnect: the whiteboard, the mocked socket and the file list

    A shallow embedding of [src/script.js] (class [CollabConnect]).  The
    fields of the controller object, the 2D context of the whiteboard canvas
    and the parts of the page the handlers write to are gathered in one
    [State] record; every method is a computation in a small state monad
    whose results are JavaScript completions (normal return or throw).

    Numbers are integers: coordinates are in pixels, the brush size is the
    number the slider's value converts to.  The canvas is the list of the
    [stroke()] calls it has received since it was last cleared; the DOM
    lists are the lists of the data their items were built from.  Values
    the environment supplies ([Date.now()], [Math.random()], object URLs)
    are inputs. *)

From Stdlib Require Import ZArith Lia.
From stdpp Require Import base strings list gmap sorting.

Local Open Scope string_scope.
Local Open Scope list_scope.
Local Open Scope Z_scope.

(** ** JavaScript values compared with [===] / [!==] *)

(** [this.displayName] is [null] until the user joins; [data.sender] and
    [data.uploader] are copies of it. *)
Inductive JsVal : Type :=
  | JsNull
  | JsString (s : string).

Global Instance JsVal_eq_dec : EqDecision JsVal.
Proof. solve_decision. Defined.

(** [a !== b] on the values above. *)
Definition strict_neq (a b : JsVal) : bool := bool_decide (a ≠ b).

(** ** The canvas *)

Record Point : Type := mkPoint { px : Z; py : Z }.

Global Instance Point_eq_dec : EqDecision Point.
Proof. solve_decision. Defined.

(** The current default path of a 2D context: a list of subpaths, each a
    list of points joined by straight lines. *)
Abbreviation Path := (list (list Point)).

(** [CanvasRenderingContext2D]: the attributes the program sets, and the
    current path. *)
Record Ctx : Type := mkCtx {
  path : Path;
  globalCompositeOperation : string;
  strokeStyle : string;
  lineWidth : Z;
  lineCap : string;
  lineJoin : string
}.

(** One [stroke()] call as the canvas receives it: the path that is
    stroked, with the compositing operation, the style and the width in
    force. *)
Record Painted : Type := mkPainted {
  p_path : Path;
  p_composite : string;
  p_style : string;
  p_width : Z
}.

Global Instance Painted_eq_dec : EqDecision Painted.
Proof. solve_decision. Defined.

Module Canvas.

(** [ctx.beginPath()] empties the list of subpaths. *)
Definition beginPath (c : Ctx) : Ctx :=
  mkCtx [] (globalCompositeOperation c) (strokeStyle c) (lineWidth c)
        (lineCap c) (lineJoin c).

(** [ctx.moveTo(x, y)] starts a new subpath at the point. *)
Definition moveTo (x y : Z) (c : Ctx) : Ctx :=
  mkCtx (path c ++ [[mkPoint x y]]) (globalCompositeOperation c)
        (strokeStyle c) (lineWidth c) (lineCap c) (lineJoin c).

(** Appends a point to the last subpath. *)
Fixpoint extend_last (p : Point) (subpaths : Path) : Path :=
  match subpaths with
  | [] => [[p]]
  | [sp] => [sp ++ [p]]
  | sp :: rest => sp :: extend_last p rest
  end.

(** [ctx.lineTo(x, y)]: with no subpath it behaves as [moveTo]; otherwise
    it connects the last point of the last subpath to the point. *)
Definition lineTo (x y : Z) (c : Ctx) : Ctx :=
  mkCtx (extend_last (mkPoint x y) (path c)) (globalCompositeOperation c)
        (strokeStyle c) (lineWidth c) (lineCap c) (lineJoin c).

Definition set_globalCompositeOperation (v : string) (c : Ctx) : Ctx :=
  mkCtx (path c) v (strokeStyle c) (lineWidth c) (lineCap c) (lineJoin c).

(** The colours assigned come from [this.currentColor], which holds
    ['#000000'] or the value of the colour picker, always a valid colour,
    so the assignment always takes effect. *)
Definition set_strokeStyle (v : string) (c : Ctx) : Ctx :=
  mkCtx (path c) (globalCompositeOperation c) v (lineWidth c)
        (lineCap c) (lineJoin c).

(** On setting [lineWidth], zero and negative values are ignored by the
    canvas. *)
Definition set_lineWidth (v : Z) (c : Ctx) : Ctx :=
  if 0 <? v
  then mkCtx (path c) (globalCompositeOperation c) (strokeStyle c) v
             (lineCap c) (lineJoin c)
  else c.

Definition set_lineCap (v : string) (c : Ctx) : Ctx :=
  mkCtx (path c) (globalCompositeOperation c) (strokeStyle c) (lineWidth c)
        v (lineJoin c).

Definition set_lineJoin (v : string) (c : Ctx) : Ctx :=
  mkCtx (path c) (globalCompositeOperation c) (strokeStyle c) (lineWidth c)
        (lineCap c) v.

(** What [ctx.stroke()] sends to the surface. *)
Definition stroked (c : Ctx) : Painted :=
  mkPainted (path c) (globalCompositeOperation c) (strokeStyle c)
            (lineWidth c).

(** Number of points of a path. *)
Definition point_count (p : Path) : nat := length (concat p).

(** A freshly obtained context. *)
Definition fresh : Ctx := mkCtx [] "source-over" "#000000" 1 "butt" "miter".

End Canvas.

(** ** Events and the data sent with them *)

(** A mouse event on the canvas, with the bounding rectangle of its target
    ([e.target.getBoundingClientRect()]). *)
Record MouseEvent : Type := mkMouseEvent {
  clientX : Z;
  clientY : Z;
  rect_left : Z;
  rect_top : Z
}.

(** [{ roomId, displayName }] *)
Record JoinData : Type := mkJoinData {
  j_roomId : string;
  j_displayName : JsVal
}.

(** [messageData] of [sendMessage]. *)
Record MessageData : Type := mkMessageData {
  m_id : Z;
  m_sender : JsVal;
  m_text : string;
  m_timestamp : Z;
  m_isOwn : bool
}.

(** The object literal emitted by [draw]. *)
Record DrawData : Type := mkDrawData {
  d_x : Z;
  d_y : Z;
  d_tool : string;
  d_color : string;
  d_size : Z;
  d_isDrawing : bool
}.

(** [fileData] of [handleFileUpload]. *)
Record FileData : Type := mkFileData {
  f_id : Z;
  f_name : string;
  f_size : Z;
  f_type : string;
  f_url : string;
  f_uploader : JsVal
}.

Global Instance JoinData_eq_dec : EqDecision JoinData.
Proof. solve_decision. Defined.
Global Instance MessageData_eq_dec : EqDecision MessageData.
Proof. solve_decision. Defined.
Global Instance DrawData_eq_dec : EqDecision DrawData.
Proof. solve_decision. Defined.
Global Instance FileData_eq_dec : EqDecision FileData.
Proof. solve_decision. Defined.

(** The [(event, data)] pairs the program passes to [socket.emit]. *)
Inductive SocketMsg : Type :=
  | JoinRoom (data : JoinData)
  | ChatMessage (data : MessageData)
  | WhiteboardDraw (data : DrawData)
  | WhiteboardClear
  | FileShare (data : FileData).

Global Instance SocketMsg_eq_dec : EqDecision SocketMsg.
Proof. solve_decision. Defined.

(** The first argument of [socket.emit]. *)
Definition event_name (m : SocketMsg) : string :=
  match m with
  | JoinRoom _ => "join-room"
  | ChatMessage _ => "chat-message"
  | WhiteboardDraw _ => "whiteboard-draw"
  | WhiteboardClear => "whiteboard-clear"
  | FileShare _ => "file-share"
  end.

(** Lines written with [console.log]. *)
Inductive LogEntry : Type :=
  | LogSocketEmit (m : SocketMsg)
  | LogJoinedRoom (data : JoinData).

Global Instance LogEntry_eq_dec : EqDecision LogEntry.
Proof. solve_decision. Defined.

(** ** The state *)

Record State : Type := mkState {
  (* fields of the controller *)
  displayName : JsVal;
  isDrawing : bool;
  currentTool : string;
  currentColor : string;
  currentBrushSize : Z;
  sharedFiles : gmap Z FileData;
  ctx : Ctx;
  (* the page *)
  surface : list Painted;          (* the strokes on the canvas, oldest first *)
  fileList : list FileData;        (* children of #fileList *)
  chatMessages : list MessageData; (* children of #chatMessages *)
  toast : option (string * string);(* message and type of the toast *)
  console : list LogEntry
}.

Definition set_isDrawing (v : bool) (s : State) : State :=
  mkState (displayName s) v (currentTool s) (currentColor s)
          (currentBrushSize s) (sharedFiles s) (ctx s) (surface s)
          (fileList s) (chatMessages s) (toast s) (console s).

Definition set_currentTool (v : string) (s : State) : State :=
  mkState (displayName s) (isDrawing s) v (currentColor s)
          (currentBrushSize s) (sharedFiles s) (ctx s) (surface s)
          (fileList s) (chatMessages s) (toast s) (console s).

Definition set_currentColor (v : string) (s : State) : State :=
  mkState (displayName s) (isDrawing s) (currentTool s) v
          (currentBrushSize s) (sharedFiles s) (ctx s) (surface s)
          (fileList s) (chatMessages s) (toast s) (console s).

Definition set_currentBrushSize (v : Z) (s : State) : State :=
  mkState (displayName s) (isDrawing s) (currentTool s) (currentColor s)
          v (sharedFiles s) (ctx s) (surface s)
          (fileList s) (chatMessages s) (toast s) (console s).

Definition set_sharedFiles (v : gmap Z FileData) (s : State) : State :=
  mkState (displayName s) (isDrawing s) (currentTool s) (currentColor s)
          (currentBrushSize s) v (ctx s) (surface s)
          (fileList s) (chatMessages s) (toast s) (console s).

Definition set_ctx (v : Ctx) (s : State) : State :=
  mkState (displayName s) (isDrawing s) (currentTool s) (currentColor s)
          (currentBrushSize s) (sharedFiles s) v (surface s)
          (fileList s) (chatMessages s) (toast s) (console s).

Definition set_surface (v : list Painted) (s : State) : State :=
  mkState (displayName s) (isDrawing s) (currentTool s) (currentColor s)
          (currentBrushSize s) (sharedFiles s) (ctx s) v
          (fileList s) (chatMessages s) (toast s) (console s).

Definition set_fileList (v : list FileData) (s : State) : State :=
  mkState (displayName s) (isDrawing s) (currentTool s) (currentColor s)
          (currentBrushSize s) (sharedFiles s) (ctx s) (surface s)
          v (chatMessages s) (toast s) (console s).

Definition set_chatMessages (v : list MessageData) (s : State) : State :=
  mkState (displayName s) (isDrawing s) (currentTool s) (currentColor s)
          (currentBrushSize s) (sharedFiles s) (ctx s) (surface s)
          (fileList s) v (toast s) (console s).

Definition set_toast (v : option (string * string)) (s : State) : State :=
  mkState (displayName s) (isDrawing s) (currentTool s) (currentColor s)
          (currentBrushSize s) (sharedFiles s) (ctx s) (surface s)
          (fileList s) (chatMessages s) v (console s).

Definition set_console (v : list LogEntry) (s : State) : State :=
  mkState (displayName s) (isDrawing s) (currentTool s) (currentColor s)
          (currentBrushSize s) (sharedFiles s) (ctx s) (surface s)
          (fileList s) (chatMessages s) (toast s) v.

(** ** Completions and the monad of the methods *)

(** How a call ends: it returns, or it throws an error of the given name. *)
Inductive Completion (A : Type) : Type :=
  | Normal (a : A)
  | Throw (error : string).
Arguments Normal {A} a.
Arguments Throw {A} error.

Definition M (A : Type) : Type := State → Completion A * State.

Global Instance M_ret : MRet M := λ A a s, (Normal a, s).

Global Instance M_bind : MBind M := λ A B f m s,
  match m s with
  | (Normal a, s') => f a s'
  | (Throw e, s') => (Throw e, s')
  end.

(** Reads a field of the state. *)
Definition gets {A} (f : State → A) : M A := λ s, (Normal (f s), s).

(** Writes to the state. *)
Definition modify (f : State → State) : M unit := λ s, (Normal (), f s).

(** An early [return;]. *)
Definition skip : M unit := mret ().

(** [xs.forEach(f)]: the calls in order; a throw ends the loop. *)
Fixpoint forEach {A} (f : A → M unit) (xs : list A) : M unit :=
  match xs with
  | [] => skip
  | x :: rest => f x ;; forEach f rest
  end.

(** The state a computation ends in. *)
Definition exec {A} (m : M A) (s : State) : State := (m s).2.

(** Calls on [this.ctx]. *)
Definition on_ctx (f : Ctx → Ctx) : M unit :=
  modify (λ s, set_ctx (f (ctx s)) s).

(** [this.ctx.stroke()] paints the current path on the canvas. *)
Definition ctx_stroke : M unit :=
  modify (λ s, set_surface (surface s ++ [Canvas.stroked (ctx s)]) s).

(** [this.ctx.clearRect(0, 0, canvas.width, canvas.height)]: the rectangle
    is the whole canvas (no transform is ever set), every pixel becomes
    transparent. *)
Definition ctx_clearRect_all : M unit := modify (set_surface []).

(** [console.log] *)
Definition console_log (e : LogEntry) : M unit :=
  modify (λ s, set_console (console s ++ [e]) s).

(** ** The methods of [CollabConnect] *)

(** [showToast(message, type)]: fills the toast and shows it (the timer that
    hides it again after three seconds is not part of the state). *)
Definition showToast (message type : string) : M unit :=
  modify (set_toast (Some (message, type))).

(** [addChatMessage(messageData)] appends the message to #chatMessages. *)
Definition addChatMessage (messageData : MessageData) : M unit :=
  modify (λ s, set_chatMessages (chatMessages s ++ [messageData]) s).

(** [addFileToList(fileData)] appends an item to #fileList and records the
    file in [this.sharedFiles] under its id. *)
Definition addFileToList (fileData : FileData) : M unit :=
  modify (λ s, set_fileList (fileList s ++ [fileData]) s) ;;
  modify (λ s, set_sharedFiles (<[f_id fileData := fileData]> (sharedFiles s)) s).

(** [handleSocketMessage(event, data)]: the [switch] on the event name.
    ['whiteboard-draw'] has a case whose body is only the comment
    [// Handle remote drawing]; ['whiteboard-clear'] has no case. *)
Definition handleSocketMessage (m : SocketMsg) : M unit :=
  match m with
  | JoinRoom data => console_log (LogJoinedRoom data)
  | ChatMessage data =>
      name ← gets displayName;
      if strict_neq (m_sender data) name then addChatMessage data else skip
  | WhiteboardDraw _ => skip
  | FileShare data =>
      name ← gets displayName;
      if strict_neq (f_uploader data) name then addFileToList data else skip
  | WhiteboardClear => skip
  end.

(** [this.socket.emit(event, data)] of [simulateBackend]: logs the call and
    calls the handler. *)
Definition socket_emit (m : SocketMsg) : M unit :=
  console_log (LogSocketEmit m) ;;
  handleSocketMessage m.

(** [startDrawing(e)] *)
Definition startDrawing (e : MouseEvent) : M unit :=
  modify (set_isDrawing true) ;;
  let x := clientX e - rect_left e in
  let y := clientY e - rect_top e in
  on_ctx Canvas.beginPath ;;
  on_ctx (Canvas.moveTo x y) ;;
  tool ← gets currentTool;
  if bool_decide (tool = "eraser") then
    on_ctx (Canvas.set_globalCompositeOperation "destination-out") ;;
    size ← gets currentBrushSize;
    on_ctx (Canvas.set_lineWidth (size * 3))
  else
    on_ctx (Canvas.set_globalCompositeOperation "source-over") ;;
    color ← gets currentColor;
    on_ctx (Canvas.set_strokeStyle color) ;;
    size ← gets currentBrushSize;
    on_ctx (Canvas.set_lineWidth size).

(** [draw(e)] *)
Definition draw (e : MouseEvent) : M unit :=
  drawing ← gets isDrawing;
  if negb drawing then skip else
  let x := clientX e - rect_left e in
  let y := clientY e - rect_top e in
  on_ctx (Canvas.lineTo x y) ;;
  ctx_stroke ;;
  tool ← gets currentTool;
  color ← gets currentColor;
  size ← gets currentBrushSize;
  socket_emit (WhiteboardDraw (mkDrawData x y tool color size true)).

(** [stopDrawing()] *)
Definition stopDrawing : M unit :=
  drawing ← gets isDrawing;
  if negb drawing then skip else
  modify (set_isDrawing false) ;;
  on_ctx Canvas.beginPath.

(** [clearWhiteboard()] *)
Definition clearWhiteboard : M unit :=
  ctx_clearRect_all ;;
  socket_emit WhiteboardClear ;;
  showToast "Whiteboard cleared" "info".

(** A [File] of the file input, together with what the environment answers
    while it is processed: the number [Date.now() + Math.random()] and the
    string [URL.createObjectURL(file)]. *)
Record Upload : Type := mkUpload {
  file_name : string;
  file_size : Z;
  file_type : string;
  fresh_id : Z;
  object_url : string
}.

(** [10 * 1024 * 1024], the limit of [handleFileUpload]. *)
Definition MAX_FILE_SIZE : Z := 10 * 1024 * 1024.

Definition dquote : string := String (Ascii.ascii_of_nat 34) EmptyString.

(** The body of the arrow function of [handleFileUpload]. *)
Definition uploadFile (file : Upload) : M unit :=
  if file_size file >? MAX_FILE_SIZE then
    showToast "File too large (max 10MB)" "error"
  else
    name ← gets displayName;
    let fileData :=
      mkFileData (fresh_id file) (file_name file) (file_size file)
                 (file_type file) (object_url file) name in
    addFileToList fileData ;;
    socket_emit (FileShare fileData) ;;
    showToast ("File " ++ dquote ++ file_name file ++ dquote ++ " uploaded")%string
              "success".

(** [handleFileUpload(files)] *)
Definition handleFileUpload (files : list Upload) : M unit :=
  forEach uploadFile files.

(** [initializeWhiteboard()] *)
Definition initializeWhiteboard : M unit :=
  on_ctx (Canvas.set_lineCap "round") ;;
  on_ctx (Canvas.set_lineJoin "round").

(** ** The listeners of [setupWhiteboardEvents] and of the file input *)

Inductive UiEvent : Type :=
  | ToolBtnClick (target_id dataset_tool : string)
  | ColorPickerChange (value : string)
  | BrushSizeInput (value : Z)
  | MouseDown (e : MouseEvent)
  | MouseMove (e : MouseEvent)
  | MouseUp
  | MouseOut
  | FileInputChange (files : list Upload).

(** The listener run for an event.  The touch listeners turn a touch into
    the mouse event of the same position, so they are covered by the mouse
    events; the tool buttons carry their tool in [data-tool]. *)
Definition dispatch (ev : UiEvent) : M unit :=
  match ev with
  | ToolBtnClick target_id dataset_tool =>
      if bool_decide (target_id = "clearBoard") then clearWhiteboard
      else modify (set_currentTool dataset_tool)
  | ColorPickerChange value => modify (set_currentColor value)
  | BrushSizeInput value => modify (set_currentBrushSize value)
  | MouseDown e => startDrawing e
  | MouseMove e => draw e
  | MouseUp => stopDrawing
  | MouseOut => stopDrawing
  | FileInputChange files => handleFileUpload files
  end.

(** The listeners run one after the other; a listener that throws does not
    stop the later ones. *)
Definition run (evs : list UiEvent) (s : State) : State :=
  foldl (λ s ev, exec (dispatch ev) s) s evs.

(** The state after the constructor and [init()], before any event. *)
Definition initial : State :=
  exec initializeWhiteboard
    (mkState JsNull false "pen" "#000000" 3 ∅ Canvas.fresh [] [] [] None []).

(** ** Derived notions used in the statements *)

(** The point a mouse event designates on the canvas. *)
Definition canvas_point (e : MouseEvent) : Point :=
  mkPoint (clientX e - rect_left e) (clientY e - rect_top e).

(** The context [startDrawing] leaves behind. *)
Definition started_ctx (e : MouseEvent) (s : State) : Ctx :=
  let c := Canvas.moveTo (clientX e - rect_left e) (clientY e - rect_top e)
             (Canvas.beginPath (ctx s)) in
  if bool_decide (currentTool s = "eraser") then
    Canvas.set_lineWidth (currentBrushSize s * 3)
      (Canvas.set_globalCompositeOperation "destination-out" c)
  else
    Canvas.set_lineWidth (currentBrushSize s)
      (Canvas.set_strokeStyle (currentColor s)
         (Canvas.set_globalCompositeOperation "source-over" c)).

(** The message [draw] emits. *)
Definition draw_message (e : MouseEvent) (s : State) : SocketMsg :=
  WhiteboardDraw
    (mkDrawData (clientX e - rect_left e) (clientY e - rect_top e)
                (currentTool s) (currentColor s) (currentBrushSize s) true).

(** The state [draw] returns while a stroke is active. *)
Definition drawn (e : MouseEvent) (s : State) : State :=
  let c := Canvas.lineTo (clientX e - rect_left e) (clientY e - rect_top e)
             (ctx s) in
  set_console (console s ++ [LogSocketEmit (draw_message e s)])
    (set_surface (surface s ++ [Canvas.stroked c]) (set_ctx c s)).

(** Whether the listener run for the event is [clearWhiteboard]. *)
Definition is_clear (ev : UiEvent) : bool :=
  match ev with
  | ToolBtnClick target_id _ => bool_decide (target_id = "clearBoard")
  | _ => false
  end.

(** The strokes on the surface of [s'] that come after those of [s]. *)
Definition new_strokes (s s' : State) : list Painted :=
  drop (length (surface s)) (surface s').

(** For every position of an event sequence handled from [s], the strokes
    painted while the event at that position was handled. *)
Fixpoint strokes_by_position (evs : list UiEvent) (s : State)
  : list (list Painted) :=
  match evs with
  | [] => []
  | ev :: rest =>
      let s' := exec (dispatch ev) s in
      new_strokes s s' :: strokes_by_position rest s'
  end.

(** The last point of the current path, where the pen is. *)
Definition pen_position (s : State) : option Point :=
  last (concat (path (ctx s))).

(** The square of the distance, in pixels, between the pen and the point of
    a mouse event. *)
Definition movement_sq (e : MouseEvent) (s : State) : option Z :=
  p ← pen_position s;
  Some ((px (canvas_point e) - px p) ^ 2 + (py (canvas_point e) - py p) ^ 2).

(** The [fileData] object [handleFileUpload] builds for a file. *)
Definition fileData_of (uploader : JsVal) (file : Upload) : FileData :=
  mkFileData (fresh_id file) (file_name file) (file_size file)
             (file_type file) (object_url file) uploader.

(** The lines on the console of [s'] that come after those of [s]. *)
Definition new_messages (s s' : State) : list LogEntry :=
  drop (length (console s)) (console s').

(** The state [handleFileUpload] leaves after a file within the limit. *)
Definition uploaded (file : Upload) (s : State) : State :=
  let fileData := fileData_of (displayName s) file in
  set_toast
    (Some (("File " ++ dquote ++ file_name file ++ dquote ++ " uploaded")%string,
           "success"))
    (set_console (console s ++ [LogSocketEmit (FileShare fileData)])
       (set_sharedFiles (<[f_id fileData := fileData]> (sharedFiles s))
          (set_fileList (fileList s ++ [fileData]) s))).

(** The state [handleFileUpload] leaves after a file over the limit. *)
Definition rejected (s : State) : State :=
  set_toast (Some ("File too large (max 10MB)", "error")) s.

(** The state after the body of the loop of [handleFileUpload]. *)
Definition after_file (file : Upload) (s : State) : State :=
  if file_size file >? MAX_FILE_SIZE then rejected s else uploaded file s.

(** Whether a message is whiteboard traffic. *)
Definition is_whiteboard_message (m : SocketMsg) : bool :=
  match m with
  | WhiteboardDraw _ | WhiteboardClear => true
  | _ => false
  end.

(** A replica handling the messages it receives, in their order of
    arrival. *)
Definition receive_all (ms : list SocketMsg) (s : State) : State :=
  foldl (λ s m, exec (handleSocketMessage m) s) s ms.

(** ** The drawing log of the specification

    The source keeps no record of strokes: it paints them and forgets them,
    and [handleSocketMessage] drops what it receives.  The log, its events
    and their order are those of the specification. *)

Module DrawingLog.

(** Modelled from the spec: the tool of a Stroke, [enum{pen, eraser}]; the
    source holds the tool as a string of the button. *)
Inductive Tool : Type := pen | eraser.

(** Modelled from the spec: a Point, [{x, y, timestampMillis}]; the source
    has no such record. *)
Record Point : Type := mkPoint { x : Z; y : Z; timestampMillis : Z }.

(** Modelled from the spec: the payload of an event of the wire format, a
    stroke [{tool, color, width, points}] or nothing for a clear; the
    source has no such type. *)
Inductive Payload : Type :=
  | stroke (tool : Tool) (color : string) (width : Z) (points : list Point)
  | clear.

(** Modelled from the spec: an event of the DrawingLog,
    [{kind, participantId, logicalClock, payload}]; the source has no
    DrawingLog. *)
Record Event : Type := mkEvent {
  participantId : string;
  logicalClock : nat;
  payload : Payload
}.

(** Modelled from the spec: the pair [(logical_clock, participant_id)] the
    log is keyed by. *)
Definition key (e : Event) : nat * string :=
  (logicalClock e, participantId e).

(** Modelled from the spec: the order on keys, by logical clock first and
    by participant id on equal clocks; the source defines no order on
    drawing events. *)
Definition key_le (k1 k2 : nat * string) : Prop :=
  (k1.1 < k2.1)%nat ∨ (k1.1 = k2.1 ∧ String.le k1.2 k2.2).

(** Modelled from the spec: the order of the log, that of the keys of its
    events. *)
Definition precedes (e1 e2 : Event) : Prop := key_le (key e1) (key e2).

Global Instance key_le_dec : RelDecision key_le.
Proof. intros k1 k2. unfold key_le. apply _. Defined.

Global Instance precedes_dec : RelDecision precedes.
Proof. intros e1 e2. unfold precedes. apply _. Defined.

(** Modelled from the spec: the DrawingLog of a participant after sorting,
    from the events in the order in which they arrived; the source has no
    DrawingLog. *)
Definition sorted (received : list Event) : list Event :=
  merge_sort precedes received.

(** Modelled from the spec: the order in which a replica renders, that of
    its sorted log. *)
Definition render_order (received : list Event) : list Payload :=
  payload <$> sorted received.

End DrawingLog.

(** ** Further methods and notions *)

(** [clearChat()] empties #chatMessages. *)
Definition clearChat : M unit := modify (set_chatMessages []).

(** [clearFiles()] empties #fileList and [this.sharedFiles]. *)
Definition clearFiles : M unit :=
  modify (set_fileList []) ;;
  modify (set_sharedFiles ∅).

(** The map obtained by [sharedFiles.set(file.id, file)] for the files of a
    list, first to last. *)
Definition files_by_id (files : list FileData) : gmap Z FileData :=
  foldl (λ m fileData, <[f_id fileData := fileData]> m) ∅ files.

(** [sharedFiles] is the map of the files listed in #fileList. *)
Definition files_consistent (s : State) : Prop :=
  sharedFiles s = files_by_id (fileList s).

(** What goes on in a session: the listeners and the messages received. *)
Inductive Action : Type :=
  | Ui (ev : UiEvent)
  | Receive (m : SocketMsg)
  | ClearFiles
  | ClearChat.

Definition perform (a : Action) : M unit :=
  match a with
  | Ui ev => dispatch ev
  | Receive m => handleSocketMessage m
  | ClearFiles => clearFiles
  | ClearChat => clearChat
  end.

Definition perform_all (acts : list Action) (s : State) : State :=
  foldl (λ s a, exec (perform a) s) s acts.

(** The shape of the current path: empty when no stroke is active, one
    subpath that is not empty when one is. *)
Definition path_wf (s : State) : bool :=
  match isDrawing s, path (ctx s) with
  | true, [_ :: _] => true
  | false, [] => true
  | _, _ => false
  end.

(** The point a painted stroke ends at. *)
Definition end_point (p : Painted) : option Point := last (concat (p_path p)).

(** The whiteboard-draw messages on the console. *)
Definition draw_messages (s : State) : list DrawData :=
  omap (λ entry, match entry with
                 | LogSocketEmit (WhiteboardDraw data) => Some data
                 | _ => None
                 end) (console s).

(** A stroke has been announced when a whiteboard-draw message on the
    console carries its end point. *)
Definition announced (s : State) (p : Painted) : Prop :=
  ∃ data, data ∈ draw_messages s
          ∧ end_point p = Some (mkPoint (d_x data) (d_y data)).


(** Pointer events that do not begin a stroke. *)
Definition outside_gesture (ev : UiEvent) : bool :=
  match ev with
  | MouseMove _ | MouseUp | MouseOut => true
  | _ => false
  end.

(** The chat messages a replica named [name] shows among the messages it
    receives: those of the other senders. *)
Definition shown_chat (name : JsVal) (ms : list SocketMsg) : list MessageData :=
  omap (λ m, match m with
             | ChatMessage data =>
                 if strict_neq (m_sender data) name then Some data else None
             | _ => None
             end) ms.

(** The files a replica named [name] lists among the messages it receives:
    those of the other uploaders. *)
Definition shown_files (name : JsVal) (ms : list SocketMsg) : list FileData :=
  omap (λ m, match m with
             | FileShare data =>
                 if strict_neq (f_uploader data) name then Some data else None
             | _ => None
             end) ms.

(** Two states with the same whiteboard: drawing flag, context, canvas and
    selected tool, colour and brush size. *)
Definition same_board (s s' : State) : Prop :=
  isDrawing s' = isDrawing s ∧ ctx s' = ctx s ∧ surface s' = surface s
  ∧ currentTool s' = currentTool s ∧ currentColor s' = currentColor s
  ∧ currentBrushSize s' = currentBrushSize s.

(** The whiteboard events among the actions of a session: every listener
    event but the file input. *)
Definition board_events (acts : list Action) : list UiEvent :=
  omap (λ a, match a with
             | Ui (FileInputChange _) => None
             | Ui ev => Some ev
             | _ => None
             end) acts.

(** The stroke painted by the move number [k] (from 0) of a gesture that
    began at [start] in context [c] and went through [moves]. *)
Definition gesture_stroke (c : Ctx) (start : list Point)
    (moves : list MouseEvent) (k : nat) : Painted :=
  mkPainted [start ++ (canvas_point <$> take (S k) moves)]
            (globalCompositeOperation c) (strokeStyle c) (lineWidth c).

(** ** The session: chat input, media and the end of the call

    The controller together with the other parts of the page and of the
    browser its remaining synchronous methods read and write.  The classes
    and styles of the control buttons are not part of the state; the
    elements the methods look up are taken to exist.  [joinMeeting] and
    [toggleScreenShare] wait for the browser and are not modelled, nor are
    the callbacks of the timers. *)

(** A [MediaStreamTrack]: its kind (['video'] or ['audio']), its [enabled]
    attribute, and whether [stop()] has been called on it. *)
Record Track : Type := mkTrack {
  kind : string;
  enabled : bool;
  stopped : bool
}.

Global Instance Track_eq_dec : EqDecision Track.
Proof. solve_decision. Defined.

(** An item of #participantsList. *)
Record Participant : Type := mkParticipant {
  participant_id : string;
  participant_name : string;
  participant_isLocal : bool
}.

Record Session : Type := mkSession {
  app_state : State;
  localStream : option (list Track);   (* [null], or the tracks of the stream *)
  peers : list string;                 (* the keys of [this.peers] *)
  isVideoEnabled : bool;
  isAudioEnabled : bool;
  chatInput : string;                  (* the value of #chatInput *)
  responseTimers : list string;        (* the messages whose simulated
                                          response is scheduled *)
  authModalHidden : bool;
  mainAppHidden : bool;
  remoteVideos : list string;          (* the containers of #videoGrid other
                                          than the local one *)
  participants : list Participant
}.

Definition set_app_state (v : State) (σ : Session) : Session :=
  mkSession v (localStream σ) (peers σ) (isVideoEnabled σ) (isAudioEnabled σ)
            (chatInput σ) (responseTimers σ) (authModalHidden σ)
            (mainAppHidden σ) (remoteVideos σ) (participants σ).

(** [track.enabled = !track.enabled] on the first track of the kind, with
    the new value; nothing when the stream has no track of the kind. *)
Fixpoint toggle_first (k : string) (tracks : list Track)
  : option (list Track * bool) :=
  match tracks with
  | [] => None
  | t :: rest =>
      if bool_decide (kind t = k)
      then Some (mkTrack (kind t) (negb (enabled t)) (stopped t) :: rest,
                 negb (enabled t))
      else '(rest', b) ← toggle_first k rest; Some (t :: rest', b)
  end.

(** [toggleVideo()] *)
Definition toggleVideo (σ : Session) : Session :=
  match localStream σ with
  | None => σ
  | Some tracks =>
      match toggle_first "video" tracks with
      | None => σ
      | Some (tracks', on) =>
          mkSession
            (exec (showToast (if on then "Video enabled" else "Video disabled")
                             "info") (app_state σ))
            (Some tracks') (peers σ) on (isAudioEnabled σ)
            (chatInput σ) (responseTimers σ) (authModalHidden σ)
            (mainAppHidden σ) (remoteVideos σ) (participants σ)
      end
  end.

(** [toggleAudio()] *)
Definition toggleAudio (σ : Session) : Session :=
  match localStream σ with
  | None => σ
  | Some tracks =>
      match toggle_first "audio" tracks with
      | None => σ
      | Some (tracks', on) =>
          mkSession
            (exec (showToast (if on then "Audio enabled" else "Audio disabled")
                             "info") (app_state σ))
            (Some tracks') (peers σ) (isVideoEnabled σ) on
            (chatInput σ) (responseTimers σ) (authModalHidden σ)
            (mainAppHidden σ) (remoteVideos σ) (participants σ)
      end
  end.

(** [track.stop()] *)
Definition stop_track (t : Track) : Track := mkTrack (kind t) (enabled t) true.

(** [endCall()] *)
Definition endCall (σ : Session) : Session :=
  mkSession
    (exec (clearChat ;; clearWhiteboard ;; clearFiles ;;
           showToast "Call ended" "info") (app_state σ))
    ((λ tracks : list Track, stop_track <$> tracks) <$> localStream σ)
    []
    (isVideoEnabled σ) (isAudioEnabled σ)
    (chatInput σ) (responseTimers σ)
    false true [] [].

(** [sendMessage()].  [trim] stands for [String.prototype.trim]; [now] and
    [date] are what [Date.now()] and [new Date()] answer. *)
Definition sendMessage (trim : string → string) (now date : Z) (σ : Session)
  : Session :=
  let message := trim (chatInput σ) in
  if bool_decide (message = EmptyString) then σ else
  let messageData :=
    mkMessageData now (displayName (app_state σ)) message date true in
  mkSession
    (exec (addChatMessage messageData ;; socket_emit (ChatMessage messageData))
          (app_state σ))
    (localStream σ) (peers σ) (isVideoEnabled σ) (isAudioEnabled σ)
    EmptyString (responseTimers σ ++ [message])
    (authModalHidden σ) (mainAppHidden σ) (remoteVideos σ) (participants σ).

(** The [enabled] attribute of the first track of a kind, if any. *)
Definition track_enabled (k : string) (σ : Session) : option bool :=
  tracks ← localStream σ;
  enabled <$> head (filter (λ t, kind t = k) tracks).



(** * Properties *)

(** Unfolds the monadic plumbing so that a method applied to a state
    reduces to the state it returns. *)
Ltac unfold_m :=
  cbv [mbind M_bind mret M_ret gets modify on_ctx skip ctx_stroke
       ctx_clearRect_all console_log showToast addChatMessage addFileToList
       exec].

Section Methods.

Implicit Types (s : State) (e : MouseEvent) (c : Ctx).

Lemma startDrawing_eq e s :
  startDrawing e s = (Normal (), set_ctx (started_ctx e s) (set_isDrawing true s)).
Proof.
  unfold startDrawing, started_ctx. unfold_m. simpl.
  case_bool_decide; reflexivity.
Qed.

Lemma draw_idle e s : isDrawing s = false → draw e s = (Normal (), s).
Proof. intros Hidle. unfold draw. unfold_m. rewrite Hidle. reflexivity. Qed.

Lemma draw_active e s :
  isDrawing s = true → draw e s = (Normal (), drawn e s).
Proof.
  intros Hact. unfold draw, socket_emit, handleSocketMessage. unfold_m.
  rewrite Hact. reflexivity.
Qed.

Lemma stopDrawing_idle s : isDrawing s = false → stopDrawing s = (Normal (), s).
Proof. intros Hidle. unfold stopDrawing. unfold_m. rewrite Hidle. reflexivity. Qed.

Lemma stopDrawing_active s :
  isDrawing s = true →
  stopDrawing s =
    (Normal (), set_ctx (Canvas.beginPath (ctx s)) (set_isDrawing false s)).
Proof. intros Hact. unfold stopDrawing. unfold_m. rewrite Hact. reflexivity. Qed.

Lemma clearWhiteboard_eq s :
  clearWhiteboard s =
    (Normal (),
     set_toast (Some ("Whiteboard cleared", "info"))
       (set_console (console s ++ [LogSocketEmit WhiteboardClear])
          (set_surface [] s))).
Proof. reflexivity. Qed.

(** The attributes of the context that [lineTo] leaves alone. *)
Lemma lineTo_attributes x y c :
  globalCompositeOperation (Canvas.lineTo x y c) = globalCompositeOperation c
  ∧ strokeStyle (Canvas.lineTo x y c) = strokeStyle c
  ∧ lineWidth (Canvas.lineTo x y c) = lineWidth c.
Proof. done. Qed.

Lemma point_count_extend_last p (subpaths : Path) :
  Canvas.point_count (Canvas.extend_last p subpaths)
  = S (Canvas.point_count subpaths).
Proof.
  unfold Canvas.point_count.
  induction subpaths as [|sp [|sp' rest] IH]; simpl in *.
  - reflexivity.
  - rewrite !app_nil_r, length_app. simpl. lia.
  - rewrite !length_app in *. lia.
Qed.

Lemma started_ctx_path e s : path (started_ctx e s) = [[canvas_point e]].
Proof.
  unfold started_ctx, Canvas.set_lineWidth.
  case_bool_decide; repeat case_match; reflexivity.
Qed.

Lemma started_ctx_composite e s :
  globalCompositeOperation (started_ctx e s)
  = if bool_decide (currentTool s = "eraser")
    then "destination-out" else "source-over".
Proof.
  unfold started_ctx, Canvas.set_lineWidth.
  case_bool_decide; repeat case_match; reflexivity.
Qed.

Lemma started_ctx_style e s :
  strokeStyle (started_ctx e s)
  = if bool_decide (currentTool s = "eraser")
    then strokeStyle (ctx s) else currentColor s.
Proof.
  unfold started_ctx, Canvas.set_lineWidth.
  case_bool_decide; repeat case_match; reflexivity.
Qed.

End Methods.

(** ** The gesture state machine *)

Section Gesture.

Implicit Types (s : State) (e : MouseEvent).

Lemma run_cons ev evs s : run (ev :: evs) s = run evs (exec (dispatch ev) s).
Proof. reflexivity. Qed.

Lemma run_app evs1 evs2 s : run (evs1 ++ evs2) s = run evs2 (run evs1 s).
Proof. apply foldl_app. Qed.

Lemma exec_draw_active e s :
  isDrawing s = true → exec (dispatch (MouseMove e)) s = drawn e s.
Proof. intros Hact. unfold exec. simpl. by rewrite draw_active. Qed.

(** A run of pointer moves while a stroke is active keeps it active. *)
Lemma moves_stay_active moves s :
  isDrawing s = true → isDrawing (run (MouseMove <$> moves) s) = true.
Proof.
  revert s. induction moves as [|e moves IH]; intros s Hact; [done|].
  rewrite fmap_cons, run_cons, exec_draw_active by done. by apply IH.
Qed.

(** ... and adds one point to the path for each of them. *)
Lemma moves_point_count moves s :
  isDrawing s = true →
  Canvas.point_count (path (ctx (run (MouseMove <$> moves) s)))
  = (Canvas.point_count (path (ctx s)) + length moves)%nat.
Proof.
  revert s. induction moves as [|e moves IH]; intros s Hact.
  - simpl. lia.
  - rewrite fmap_cons, run_cons, exec_draw_active by done.
    rewrite IH by done. simpl. rewrite point_count_extend_last. lia.
Qed.

End Gesture.

(** C2, as stated, fails: in the state reached by a pointer-down at
    (10, 10) and a move to (20, 20) a stroke is active, and a second
    pointer-down at (50, 60) is not ignored: it replaces the current path by
    a new one that starts at (50, 60). *)
Lemma pointer_down_while_active_restarts :
  let s := run [MouseDown (mkMouseEvent 10 10 0 0);
                MouseMove (mkMouseEvent 20 20 0 0)] initial in
  let s' := exec (startDrawing (mkMouseEvent 50 60 0 0)) s in
  isDrawing s = true
  ∧ path (ctx s) = [[mkPoint 10 10; mkPoint 20 20]]
  ∧ path (ctx s') = [[mkPoint 50 60]]
  ∧ s' ≠ s.
Proof.
  cbv zeta. split_and!; [reflexivity..|].
  intros Heq. apply (f_equal (λ st, path (ctx st))) in Heq.
  vm_compute in Heq. discriminate.
Qed.

(** C2, amended: a pointer-down always leaves the state machine in Active,
    whether it was Idle or Active: it returns normally, begins a new path
    made of the pointer position alone, applies again the style of the
    selected tool (for the eraser [destination-out] and three times the
    brush size, the stroke colour left as it was; for any other tool
    [source-over], the selected colour and the brush size; a width that is
    not positive is ignored by the canvas), and by itself paints nothing and
    sends nothing. *)
Theorem pointer_down_always_starts_a_stroke (s : State) (e : MouseEvent) :
  let s' := exec (startDrawing e) s in
  let eraser := bool_decide (currentTool s = "eraser") in
  let width := if eraser then currentBrushSize s * 3 else currentBrushSize s in
  (startDrawing e s).1 = Normal ()
  ∧ isDrawing s' = true
  ∧ path (ctx s') = [[canvas_point e]]
  ∧ surface s' = surface s
  ∧ console s' = console s
  ∧ globalCompositeOperation (ctx s')
    = (if eraser then "destination-out" else "source-over")
  ∧ strokeStyle (ctx s')
    = (if eraser then strokeStyle (ctx s) else currentColor s)
  ∧ lineWidth (ctx s') = (if 0 <? width then width else lineWidth (ctx s))
  ∧ lineCap (ctx s') = lineCap (ctx s)
  ∧ lineJoin (ctx s') = lineJoin (ctx s).
Proof.
  cbv zeta. unfold exec. rewrite startDrawing_eq. simpl.
  split_and!; try reflexivity.
  - apply started_ctx_path.
  - apply started_ctx_composite.
  - apply started_ctx_style.
  - unfold started_ctx, Canvas.set_lineWidth.
    case_bool_decide; case_match; reflexivity.
  - unfold started_ctx, Canvas.set_lineWidth.
    case_bool_decide; case_match; reflexivity.
  - unfold started_ctx, Canvas.set_lineWidth.
    case_bool_decide; case_match; reflexivity.
Qed.

(** C5, as stated, fails: after a stroke has been sealed (pointer-down, a
    move, pointer-up), a further pointer-move returns normally, throws
    nothing and leaves the whole state as it was, toast and console
    included. *)
Lemma extending_a_sealed_stroke_is_silent :
  let s := run [MouseDown (mkMouseEvent 10 10 0 0);
                MouseMove (mkMouseEvent 20 20 0 0);
                MouseUp] initial in
  let e := mkMouseEvent 40 40 0 0 in
  isDrawing s = false
  ∧ draw e s = (Normal (), s)
  ∧ ¬ (∃ error, (draw e s).1 = Throw error).
Proof.
  cbv zeta. split_and!.
  - reflexivity.
  - by apply draw_idle.
  - rewrite draw_idle by reflexivity. intros [error Herr]. discriminate.
Qed.

(** C5, amended: a pointer-move that arrives when no stroke is active, in
    particular after the stroke has been sealed, is a silent no-op: [draw]
    returns normally and the state (path, surface, console, toast) is
    unchanged. *)
Theorem draw_without_active_stroke_is_noop (s : State) (e : MouseEvent) :
  isDrawing s = false → draw e s = (Normal (), s).
Proof. apply draw_idle. Qed.

Lemma draw_without_active_stroke_is_noop_witness :
  let sealed := run [MouseDown (mkMouseEvent 10 10 0 0);
                     MouseMove (mkMouseEvent 20 20 0 0);
                     MouseOut] initial in
  isDrawing sealed = false
  ∧ draw (mkMouseEvent 40 40 0 0) sealed = (Normal (), sealed).
Proof.
  cbv zeta. split; [reflexivity|].
  apply (draw_without_active_stroke_is_noop
           (run [MouseDown (mkMouseEvent 10 10 0 0);
                 MouseMove (mkMouseEvent 20 20 0 0);
                 MouseOut] initial)
           (mkMouseEvent 40 40 0 0)).
  reflexivity.
Defined.

(** C6, as stated, fails: with the pen at (10, 10), a pointer-move to
    (10, 10), a movement of zero pixels, still appends a point, paints a
    stroke and sends a message. *)
Lemma zero_movement_still_appends :
  let s := exec (startDrawing (mkMouseEvent 10 10 0 0)) initial in
  let e := mkMouseEvent 10 10 0 0 in
  let s' := exec (draw e) s in
  isDrawing s = true
  ∧ movement_sq e s = Some 0
  ∧ path (ctx s) = [[mkPoint 10 10]]
  ∧ path (ctx s') = [[mkPoint 10 10; mkPoint 10 10]]
  ∧ length (surface s') = S (length (surface s))
  ∧ length (console s') = S (length (console s))
  ∧ s' ≠ s.
Proof.
  cbv zeta. split_and!; [reflexivity..|].
  intros Heq. apply (f_equal (λ st, path (ctx st))) in Heq.
  vm_compute in Heq. discriminate.
Qed.

(** C6, amended: while a stroke is active every pointer-move, whatever the
    distance moved, appends exactly one point to the path, strokes the path
    and emits one whiteboard-draw message; [n] moves in a row append [n]
    points. *)
Theorem every_move_appends_a_point (s : State) (e : MouseEvent)
    (moves : list MouseEvent) :
  isDrawing s = true →
  let s' := exec (draw e) s in
  (draw e s).1 = Normal ()
  ∧ isDrawing s' = true
  ∧ path (ctx s') = Canvas.extend_last (canvas_point e) (path (ctx s))
  ∧ Canvas.point_count (path (ctx s')) = S (Canvas.point_count (path (ctx s)))
  ∧ surface s' = surface s ++ [Canvas.stroked (ctx s')]
  ∧ console s' = console s ++ [LogSocketEmit (draw_message e s)]
  ∧ Canvas.point_count (path (ctx (run (MouseMove <$> moves) s)))
    = (Canvas.point_count (path (ctx s)) + length moves)%nat.
Proof.
  intros Hact. cbv zeta. unfold exec. rewrite draw_active by done. simpl.
  split_and!; try done.
  - apply point_count_extend_last.
  - by apply moves_point_count.
Qed.

Lemma every_move_appends_a_point_witness :
  let s := exec (startDrawing (mkMouseEvent 10 10 0 0)) initial in
  let e := mkMouseEvent 10 10 0 0 in
  isDrawing s = true
  ∧ Canvas.point_count (path (ctx (exec (draw e) s)))
    = S (Canvas.point_count (path (ctx s))).
Proof.
  cbv zeta. split; [reflexivity|].
  apply (every_move_appends_a_point
           (exec (startDrawing (mkMouseEvent 10 10 0 0)) initial)
           (mkMouseEvent 10 10 0 0) []).
  reflexivity.
Defined.

(** C7: what the code does with a received whiteboard-draw message: the
    handler returns normally and the state, the surface in particular, is
    unchanged; nothing is rendered. *)
Theorem remote_draw_is_discarded (s : State) (data : DrawData) :
  handleSocketMessage (WhiteboardDraw data) s = (Normal (), s)
  ∧ surface (exec (handleSocketMessage (WhiteboardDraw data)) s) = surface s.
Proof. split; reflexivity. Qed.

(** C8: [socket.emit(event, data)] is a loopback: after logging the call it
    is the call [handleSocketMessage(event, data)] on the same object, the
    completion and the final state of the one being those of the other. *)
Theorem socket_emit_is_loopback (m : SocketMsg) (s : State) :
  socket_emit m s
  = handleSocketMessage m (set_console (console s ++ [LogSocketEmit m]) s).
Proof. reflexivity. Qed.

(** C9: a pointer-down immediately followed by a pointer-up (or by the
    pointer leaving the canvas) yields a degenerate stroke: nothing is
    painted on the surface, nothing is sent, the path is left empty and the
    state machine is back in Idle. *)
Theorem tap_paints_and_sends_nothing (s : State) (e : MouseEvent) :
  let up := run [MouseDown e; MouseUp] s in
  let out := run [MouseDown e; MouseOut] s in
  surface up = surface s ∧ console up = console s
  ∧ isDrawing up = false ∧ path (ctx up) = []
  ∧ out = up.
Proof.
  cbv zeta. unfold run. cbn [foldl dispatch]. unfold exec.
  rewrite startDrawing_eq. cbn [snd].
  rewrite stopDrawing_active by reflexivity.
  split_and!; reflexivity.
Qed.

(** ** Tools and compositing *)

Section Compositing.

Implicit Types (s : State) (e : MouseEvent).

(** What a run of pointer moves paints and sends while a stroke is
    active: one stroke and one message per move, all with the compositing
    and the style the context had at the start, and with the tool and the
    colour selected. *)
Lemma moves_effects moves s :
  isDrawing s = true →
  ∃ painted sent,
    surface (run (MouseMove <$> moves) s) = surface s ++ painted
    ∧ console (run (MouseMove <$> moves) s)
      = console s ++ (LogSocketEmit ∘ WhiteboardDraw <$> sent)
    ∧ length painted = length moves
    ∧ length sent = length moves
    ∧ Forall (λ p, p_composite p = globalCompositeOperation (ctx s)
                   ∧ p_style p = strokeStyle (ctx s)) painted
    ∧ Forall (λ d, d_tool d = currentTool s
                   ∧ d_color d = currentColor s) sent.
Proof.
  revert s. induction moves as [|e moves IH]; intros s Hact.
  - exists [], []. simpl. rewrite !app_nil_r. by split_and!.
  - rewrite fmap_cons, run_cons, exec_draw_active by done.
    destruct (IH (drawn e s)) as (painted & sent & Hs & Hc & Hlp & Hls & Hp & Hd);
      [done|].
    eexists (_ :: painted), (_ :: sent).
    rewrite Hs, Hc. simpl. rewrite <- !app_assoc. simpl.
    split_and!; try done; try (by f_equal).
    + constructor; [done|]. exact Hp.
    + constructor; [done|]. exact Hd.
Qed.

Lemma new_strokes_app s s' painted :
  surface s' = surface s ++ painted → new_strokes s s' = painted.
Proof. unfold new_strokes. intros ->. by rewrite drop_app_length. Qed.

Lemma new_messages_app s s' logged :
  console s' = console s ++ logged → new_messages s s' = logged.
Proof. unfold new_messages. intros ->. by rewrite drop_app_length. Qed.

(** The strokes and messages of a whole gesture: a pointer-down followed
    by pointer moves. *)
Lemma gesture_effects e moves s :
  let s' := run (MouseDown e :: (MouseMove <$> moves)) s in
  ∃ sent,
    new_messages s s' = (LogSocketEmit ∘ WhiteboardDraw <$> sent)
    ∧ length (new_strokes s s') = length moves
    ∧ length sent = length moves
    ∧ Forall (λ p, p_composite p = globalCompositeOperation (started_ctx e s)
                   ∧ p_style p = strokeStyle (started_ctx e s))
             (new_strokes s s')
    ∧ Forall (λ d, d_tool d = currentTool s
                   ∧ d_color d = currentColor s) sent.
Proof.
  cbv zeta. rewrite run_cons.
  replace (exec (dispatch (MouseDown e)) s)
    with (set_ctx (started_ctx e s) (set_isDrawing true s))
    by (unfold exec; cbn [dispatch]; by rewrite startDrawing_eq).
  set (s0 := set_ctx (started_ctx e s) (set_isDrawing true s)).
  destruct (moves_effects moves s0)
    as (painted & sent & Hs & Hc & Hlp & Hls & Hp & Hd); [done|].
  exists sent.
  rewrite (new_strokes_app s _ painted) by exact Hs.
  rewrite (new_messages_app s _ _ Hc).
  by split_and!.
Qed.

End Compositing.


(** ** File upload *)

Section Upload.

Implicit Types (s : State) (file : Upload) (files : list Upload).

(** A loop whose body never throws runs to its end. *)
Lemma forEach_normal {A} (f : A → M unit) (g : A → State → State) xs s :
  (∀ x s, f x s = (Normal (), g x s)) →
  forEach f xs s = (Normal (), foldl (λ s x, g x s) s xs).
Proof.
  intros Hf. revert s. induction xs as [|x xs IH]; intros s; [done|].
  simpl. unfold mbind, M_bind. rewrite Hf. apply IH.
Qed.

Lemma uploadFile_too_large file s :
  file_size file > MAX_FILE_SIZE → uploadFile file s = (Normal (), rejected s).
Proof.
  intros Hsize. unfold uploadFile.
  destruct (Z.gtb_spec (file_size file) MAX_FILE_SIZE); [done|lia].
Qed.

Lemma uploadFile_accepted file s :
  file_size file ≤ MAX_FILE_SIZE → uploadFile file s = (Normal (), uploaded file s).
Proof.
  intros Hsize. unfold uploadFile.
  destruct (Z.gtb_spec (file_size file) MAX_FILE_SIZE); [lia|].
  unfold socket_emit, handleSocketMessage. unfold_m. simpl.
  unfold strict_neq. rewrite bool_decide_eq_false_2 by (intros Hne; by apply Hne).
  reflexivity.
Qed.

Lemma uploadFile_eq file s : uploadFile file s = (Normal (), after_file file s).
Proof.
  unfold after_file.
  destruct (Z.gtb_spec (file_size file) MAX_FILE_SIZE).
  - apply uploadFile_too_large. lia.
  - by apply uploadFile_accepted.
Qed.

Lemma handleFileUpload_eq files s :
  handleFileUpload files s
  = (Normal (), foldl (λ s file, after_file file s) s files).
Proof. apply forEach_normal, uploadFile_eq. Qed.

Lemma after_file_keeps file s :
  displayName (after_file file s) = displayName s
  ∧ surface (after_file file s) = surface s
  ∧ isDrawing (after_file file s) = isDrawing s
  ∧ ctx (after_file file s) = ctx s.
Proof. unfold after_file. by case_match. Qed.

Lemma handleFileUpload_keeps files s :
  displayName (exec (handleFileUpload files) s) = displayName s
  ∧ surface (exec (handleFileUpload files) s) = surface s.
Proof.
  unfold exec. rewrite handleFileUpload_eq. cbn [snd].
  revert s. induction files as [|file files IH]; intros s; [done|].
  simpl. destruct (IH (after_file file s)) as [-> ->].
  by destruct (after_file_keeps file s) as (-> & -> & _).
Qed.

End Upload.

(** C10: at any point of an upload, a file of more than 10 * 1024 * 1024
    bytes is rejected with the error toast, leaving the file list, the
    [sharedFiles] map and the console as they were; a file within the limit
    is appended to the file list, stored in [sharedFiles] under its id and
    announced by one file-share message (whose echo does not add it a
    second time).  The loop always runs to its end. *)
Theorem upload_respects_size_limit
    (before after : list Upload) (file : Upload) (s : State) :
  let s_b := exec (handleFileUpload before) s in
  let s_a := exec (handleFileUpload (before ++ [file])) s in
  let fileData := fileData_of (displayName s) file in
  (handleFileUpload (before ++ file :: after) s).1 = Normal ()
  ∧ exec (handleFileUpload (before ++ file :: after)) s
    = exec (handleFileUpload after) s_a
  ∧ (file_size file > MAX_FILE_SIZE →
       fileList s_a = fileList s_b
       ∧ sharedFiles s_a = sharedFiles s_b
       ∧ console s_a = console s_b
       ∧ toast s_a = Some ("File too large (max 10MB)", "error"))
  ∧ (file_size file ≤ MAX_FILE_SIZE →
       fileList s_a = fileList s_b ++ [fileData]
       ∧ sharedFiles s_a = <[fresh_id file := fileData]> (sharedFiles s_b)
       ∧ sharedFiles s_a !! fresh_id file = Some fileData
       ∧ console s_a = console s_b ++ [LogSocketEmit (FileShare fileData)]).
Proof.
  cbv zeta.
  pose proof (handleFileUpload_keeps before s) as [Hname _].
  unfold exec in *. rewrite !handleFileUpload_eq in *. cbn [fst snd] in *.
  rewrite !foldl_app. cbn [foldl].
  set (s_b := foldl (λ s file, after_file file s) s before) in *.
  split_and!; [done..| |].
  - intros Hsize. unfold after_file.
    destruct (Z.gtb_spec (file_size file) MAX_FILE_SIZE); [done|lia].
  - intros Hsize. unfold after_file.
    destruct (Z.gtb_spec (file_size file) MAX_FILE_SIZE); [lia|].
    unfold uploaded. rewrite Hname. cbn.
    split_and!; try done. apply lookup_insert_eq.
Qed.

Lemma upload_respects_size_limit_witness :
  let small := mkUpload "notes.txt" 2048 "text/plain" 1001 "blob:1" in
  let large := mkUpload "film.mp4" (MAX_FILE_SIZE + 1) "video/mp4" 1002 "blob:2" in
  file_size large > MAX_FILE_SIZE
  ∧ file_size small ≤ MAX_FILE_SIZE
  ∧ fileList (exec (handleFileUpload [small; large]) initial)
    = fileList (exec (handleFileUpload [small]) initial)
  ∧ fileList (exec (handleFileUpload [small]) initial)
    = [fileData_of JsNull small].
Proof.
  cbv zeta.
  assert (Hl : file_size (mkUpload "film.mp4" (MAX_FILE_SIZE + 1) "video/mp4"
                            1002 "blob:2") > MAX_FILE_SIZE)
    by (vm_compute; reflexivity).
  assert (Hs : file_size (mkUpload "notes.txt" 2048 "text/plain" 1001 "blob:1")
               ≤ MAX_FILE_SIZE)
    by (vm_compute; discriminate).
  split; [exact Hl|]. split; [exact Hs|]. split.
  - apply (upload_respects_size_limit
             [mkUpload "notes.txt" 2048 "text/plain" 1001 "blob:1"] []
             (mkUpload "film.mp4" (MAX_FILE_SIZE + 1) "video/mp4" 1002 "blob:2")
             initial).
    exact Hl.
  - apply (upload_respects_size_limit [] []
             (mkUpload "notes.txt" 2048 "text/plain" 1001 "blob:1") initial).
    exact Hs.
Defined.

(** ** Received messages *)

Section Receive.

Implicit Types (s : State) (m : SocketMsg) (ms : list SocketMsg).

(** A received message never touches the surface. *)
Lemma handleSocketMessage_surface m s :
  surface (exec (handleSocketMessage m) s) = surface s.
Proof.
  destruct m as [data|data|data| |data]; try reflexivity.
  - unfold exec, handleSocketMessage. unfold_m. by case_match.
  - unfold exec, handleSocketMessage. unfold_m. by case_match.
Qed.

(** Whiteboard traffic leaves a replica as it was, so replicas that differ
    only in the whiteboard messages they received, or in their order, do
    not differ at all. *)
Lemma whiteboard_messages_are_ignored ms s :
  Forall (λ m, is_whiteboard_message m = true) ms → receive_all ms s = s.
Proof.
  intros Hms. revert s. induction Hms as [|m ms Hm _ IH]; intros s; [done|].
  unfold receive_all in *. cbn [foldl]. rewrite <- (IH s) at 2. f_equal.
  destruct m; try discriminate; reflexivity.
Qed.

End Receive.

(** ** Clearing the board *)

Section Clear.

Implicit Types (s : State) (ev : UiEvent) (evs : list UiEvent).

(** Every listener but [clearWhiteboard] only adds to the surface. *)
Lemma surface_grows ev s :
  is_clear ev = false →
  surface (exec (dispatch ev) s)
  = surface s ++ new_strokes s (exec (dispatch ev) s).
Proof.
  intros Hclear.
  enough (∃ painted, surface (exec (dispatch ev) s) = surface s ++ painted)
    as [painted Hp].
  { by rewrite (new_strokes_app _ _ _ Hp). }
  destruct ev as [target_id tool|value|value|e|e| | |files];
    cbn [dispatch is_clear] in *.
  - rewrite Hclear. exists []. by rewrite app_nil_r.
  - exists []. by rewrite app_nil_r.
  - exists []. by rewrite app_nil_r.
  - exists []. unfold exec. rewrite startDrawing_eq. by rewrite app_nil_r.
  - unfold exec. destruct (isDrawing s) eqn:Hd.
    + rewrite draw_active by done. by eexists.
    + rewrite draw_idle by done. exists []. by rewrite app_nil_r.
  - unfold exec. exists []. rewrite app_nil_r. destruct (isDrawing s) eqn:Hd.
    + by rewrite stopDrawing_active.
    + by rewrite stopDrawing_idle.
  - unfold exec. exists []. rewrite app_nil_r. destruct (isDrawing s) eqn:Hd.
    + by rewrite stopDrawing_active.
    + by rewrite stopDrawing_idle.
  - exists []. rewrite app_nil_r. apply handleFileUpload_keeps.
Qed.

Lemma strokes_by_position_app evs1 evs2 s :
  strokes_by_position (evs1 ++ evs2) s
  = strokes_by_position evs1 s ++ strokes_by_position evs2 (run evs1 s).
Proof.
  revert s. induction evs1 as [|ev evs1 IH]; intros s; [done|].
  simpl. by rewrite IH.
Qed.

Lemma strokes_by_position_length evs s :
  length (strokes_by_position evs s) = length evs.
Proof.
  revert s. induction evs as [|ev evs IH]; intros s; [done|].
  simpl. by rewrite IH.
Qed.

(** Without a clear, the surface is what it was followed by the strokes
    of every position, in order. *)
Lemma surface_without_clear evs s :
  Forall (λ ev, is_clear ev = false) evs →
  surface (run evs s) = surface s ++ concat (strokes_by_position evs s).
Proof.
  intros Hevs. revert s.
  induction Hevs as [|ev evs Hev _ IH]; intros s.
  - simpl. by rewrite app_nil_r.
  - rewrite run_cons, IH. cbn [strokes_by_position concat].
    rewrite (surface_grows ev s Hev) at 1. by rewrite <- app_assoc.
Qed.

Lemma clear_empties_surface ev s :
  is_clear ev = true →
  surface (exec (dispatch ev) s) = []
  ∧ new_strokes s (exec (dispatch ev) s) = [].
Proof.
  destruct ev; try discriminate. cbn [is_clear dispatch].
  intros ->. unfold exec, new_strokes. rewrite clearWhiteboard_eq. cbn.
  by rewrite drop_nil.
Qed.

End Clear.

(** C4: let the event at position [P] of the sequence handled by the
    controller be a clear, with no clear after it.  Then what is on the
    surface at the end is exactly the strokes painted at the positions from
    [P] on, in order: every stroke painted before [P] is gone, whatever the
    surface held, and every stroke painted at or after [P] is there. *)
Theorem clear_suppresses_exactly_the_earlier_strokes
    (pre post : list UiEvent) (clear : UiEvent) (s : State) :
  is_clear clear = true →
  Forall (λ ev, is_clear ev = false) post →
  let log := pre ++ clear :: post in
  let P := length pre in
  log !! P = Some clear
  ∧ surface (run (take (S P) log) s) = []
  ∧ surface (run log s) = concat (drop P (strokes_by_position log s)).
Proof.
  intros Hclear Hpost. cbv zeta.
  split_and!.
  - by rewrite list_lookup_middle.
  - rewrite (cons_middle clear pre post), app_assoc.
    rewrite take_app_length' by (rewrite length_app; simpl; lia).
    rewrite run_app. apply (clear_empties_surface clear _ Hclear).
  - rewrite strokes_by_position_app.
    rewrite drop_app_length' by (by rewrite strokes_by_position_length).
    rewrite run_app, run_cons. cbn [strokes_by_position concat].
    destruct (clear_empties_surface clear (run pre s) Hclear) as [Hs ->].
    rewrite surface_without_clear by done. by rewrite Hs.
Qed.

Lemma clear_suppresses_exactly_the_earlier_strokes_witness :
  let down := MouseDown (mkMouseEvent 10 10 0 0) in
  let move1 := MouseMove (mkMouseEvent 20 20 0 0) in
  let move2 := MouseMove (mkMouseEvent 30 5 0 0) in
  let clear := ToolBtnClick "clearBoard" "clear" in
  let log := [down; move1; MouseUp] ++ clear :: [down; move2; MouseUp] in
  is_clear clear = true
  ∧ Forall (λ ev, is_clear ev = false) [down; move2; MouseUp]
  ∧ length (surface (run [down; move1; MouseUp] initial)) = 1%nat
  ∧ surface (run log initial)
    = concat (drop 3 (strokes_by_position log initial))
  ∧ surface (run log initial)
    = [mkPainted [[mkPoint 10 10; mkPoint 30 5]] "source-over" "#000000" 3].
Proof.
  cbv zeta.
  assert (Hpost : Forall (λ ev, is_clear ev = false)
            [MouseDown (mkMouseEvent 10 10 0 0);
             MouseMove (mkMouseEvent 30 5 0 0); MouseUp])
    by (repeat constructor).
  split; [reflexivity|]. split; [exact Hpost|]. split; [reflexivity|].
  split; [|reflexivity].
  apply (clear_suppresses_exactly_the_earlier_strokes
           [MouseDown (mkMouseEvent 10 10 0 0);
            MouseMove (mkMouseEvent 20 20 0 0); MouseUp]
           [MouseDown (mkMouseEvent 10 10 0 0);
            MouseMove (mkMouseEvent 30 5 0 0); MouseUp]
           (ToolBtnClick "clearBoard" "clear") initial eq_refl Hpost).
Defined.

(** ** Convergence of the drawing log *)

Section Convergence.

Import DrawingLog.

Implicit Types (e : Event) (log : list Event).

Global Instance key_le_total : Total key_le.
Proof.
  intros [c1 p1] [c2 p2]. unfold key_le. simpl.
  destruct (lt_eq_lt_dec c1 c2) as [[Hlt|Heq]|Hgt]; [by left; left| |by right; left].
  destruct (total String.le p1 p2); [left|right]; right; by split.
Qed.

Global Instance key_le_trans : Transitive key_le.
Proof.
  intros [c1 p1] [c2 p2] [c3 p3]. unfold key_le. simpl.
  intros [H12|[-> H12]] [H23|[-> H23]].
  - left. lia.
  - by left.
  - by left.
  - right. split; [done|]. by etrans.
Qed.

Lemma key_le_antisym k1 k2 : key_le k1 k2 → key_le k2 k1 → k1 = k2.
Proof.
  destruct k1 as [c1 p1], k2 as [c2 p2]. unfold key_le. simpl.
  intros [H12|[-> H12]] [H21|[H21' H21]]; try lia.
  f_equal. by apply (anti_symm String.le).
Qed.

Global Instance precedes_total : Total precedes.
Proof. intros e1 e2. apply (total key_le). Qed.

Global Instance precedes_trans : Transitive precedes.
Proof. intros e1 e2 e3. apply (transitivity (R := key_le)). Qed.

(** In a log whose keys are pairwise distinct, the key tells the event. *)
Lemma key_determines_event log e1 e2 :
  NoDup (key <$> log) → e1 ∈ log → e2 ∈ log → key e1 = key e2 → e1 = e2.
Proof.
  induction log as [|e log IH]; intros Hnd H1 H2 Hk; [by inv H1|].
  rewrite fmap_cons in Hnd. apply NoDup_cons in Hnd as [Hnotin Hnd].
  apply elem_of_cons in H1 as [->|H1]; apply elem_of_cons in H2 as [->|H2].
  - done.
  - exfalso. apply Hnotin. apply list_elem_of_fmap. by exists e2.
  - exfalso. apply Hnotin. apply list_elem_of_fmap. by exists e1.
  - by apply IH.
Qed.

Lemma sorted_is_sorted log : Sorted precedes (sorted log).
Proof. apply Sorted_merge_sort; apply _. Qed.

Lemma sorted_permutation log : sorted log ≡ₚ log.
Proof. apply merge_sort_Permutation. Qed.

End Convergence.

(** C1: two participants that have received the same set of events, each
    event once and with its own (logical clock, participant id) key, hold
    the same DrawingLog after sorting by that key, whatever the order of
    arrival, and so render in the same order. *)
Theorem sorted_logs_converge (received1 received2 : list DrawingLog.Event) :
  NoDup (DrawingLog.key <$> received1) →
  NoDup (DrawingLog.key <$> received2) →
  (∀ e, e ∈ received1 ↔ e ∈ received2) →
  DrawingLog.sorted received1 = DrawingLog.sorted received2
  ∧ DrawingLog.render_order received1 = DrawingLog.render_order received2.
Proof.
  intros Hk1 Hk2 Hsame.
  assert (Hperm : received1 ≡ₚ received2).
  { apply NoDup_Permutation; [by eapply NoDup_fmap_1..|done]. }
  assert (Heq : DrawingLog.sorted received1 = DrawingLog.sorted received2).
  { apply (Sorted_unique_strong DrawingLog.precedes).
    - intros e1 e2 He1 He2 H12 H21.
      rewrite sorted_permutation in He1, He2.
      apply (key_determines_event received2); [done|by apply Hsame|done|].
      by apply key_le_antisym.
    - apply sorted_is_sorted.
    - apply sorted_is_sorted.
    - by rewrite !sorted_permutation. }
  split; [done|]. unfold DrawingLog.render_order. by rewrite Heq.
Qed.

Lemma sorted_logs_converge_witness :
  let s1 := DrawingLog.mkEvent "A" 1
              (DrawingLog.stroke DrawingLog.pen "#000000" 3
                 [DrawingLog.mkPoint 0 0 10; DrawingLog.mkPoint 5 5 20]) in
  let s2 := DrawingLog.mkEvent "B" 1
              (DrawingLog.stroke DrawingLog.eraser "#ffffff" 3
                 [DrawingLog.mkPoint 1 1 12]) in
  let c := DrawingLog.mkEvent "A" 2 DrawingLog.clear in
  DrawingLog.sorted [s2; c; s1] = DrawingLog.sorted [c; s1; s2]
  ∧ DrawingLog.sorted [s2; c; s1] = [s1; s2; c].
Proof.
  cbv zeta. split; [|vm_compute; reflexivity].
  apply sorted_logs_converge.
  - apply (bool_decide_unpack _). vm_compute. exact I.
  - apply (bool_decide_unpack _). vm_compute. exact I.
  - intros e. rewrite !elem_of_cons, !elem_of_nil. tauto.
Defined.

(** * Further properties *)

(** ** What the methods leave alone *)

Section Frames.

Implicit Types (s : State) (m : SocketMsg) (file : Upload).

Lemma same_board_refl s : same_board s s.
Proof. by repeat split. Qed.

Lemma same_board_trans s1 s2 s3 :
  same_board s1 s2 → same_board s2 s3 → same_board s1 s3.
Proof.
  intros (?&?&?&?&?&?) (?&?&?&?&?&?). repeat split; congruence.
Qed.

Lemma after_file_board file s : same_board s (after_file file s).
Proof. unfold after_file. case_match; by repeat split. Qed.

Lemma handleFileUpload_board files s :
  same_board s (exec (handleFileUpload files) s).
Proof.
  unfold exec. rewrite handleFileUpload_eq. cbn [snd].
  revert s. induction files as [|file files IH]; intros s; [by repeat split|].
  cbn [foldl]. eapply same_board_trans; [apply after_file_board|apply IH].
Qed.

Lemma handleSocketMessage_eq m s :
  handleSocketMessage m s
  = (Normal (),
     match m with
     | JoinRoom data => set_console (console s ++ [LogJoinedRoom data]) s
     | ChatMessage data =>
         if strict_neq (m_sender data) (displayName s)
         then set_chatMessages (chatMessages s ++ [data]) s else s
     | FileShare data =>
         if strict_neq (f_uploader data) (displayName s)
         then set_sharedFiles (<[f_id data := data]> (sharedFiles s))
                (set_fileList (fileList s ++ [data]) s)
         else s
     | WhiteboardDraw _ | WhiteboardClear => s
     end).
Proof.
  destruct m as [data|data|data| |data]; try reflexivity;
    unfold handleSocketMessage; unfold_m; by case_match.
Qed.

Lemma handleSocketMessage_board m s :
  same_board s (exec (handleSocketMessage m) s)
  ∧ displayName (exec (handleSocketMessage m) s) = displayName s.
Proof.
  unfold exec. rewrite handleSocketMessage_eq. cbn [snd].
  destruct m; repeat case_match; by repeat split.
Qed.

End Frames.

(** ** Receiving messages *)

Section Receiving.

Implicit Types (s : State) (m : SocketMsg) (ms : list SocketMsg).

Lemma receive_all_cons m ms s :
  receive_all (m :: ms) s = receive_all ms (exec (handleSocketMessage m) s).
Proof. reflexivity. Qed.

Lemma receive_all_effects ms s :
  chatMessages (receive_all ms s)
  = chatMessages s ++ shown_chat (displayName s) ms
  ∧ fileList (receive_all ms s) = fileList s ++ shown_files (displayName s) ms
  ∧ sharedFiles (receive_all ms s)
    = foldl (λ files data, <[f_id data := data]> files) (sharedFiles s)
        (shown_files (displayName s) ms)
  ∧ displayName (receive_all ms s) = displayName s
  ∧ same_board s (receive_all ms s).
Proof.
  revert s. induction ms as [|m ms IH]; intros s.
  - cbn. rewrite !app_nil_r. split_and!; first [done|apply same_board_refl].
  - rewrite receive_all_cons.
    destruct (IH (exec (handleSocketMessage m) s)) as (Hc & Hf & Hm & Hn & Hb).
    destruct (handleSocketMessage_board m s) as [Hb0 Hn0].
    rewrite Hc, Hf, Hm, Hn, Hn0. clear IH Hc Hf Hm Hn.
    split_and!; [| | |done|by eapply same_board_trans];
      unfold exec; rewrite handleSocketMessage_eq;
      unfold shown_chat, shown_files; destruct m; cbn; try done;
      destruct (strict_neq _ _); cbn; try done; by rewrite <- app_assoc.
Qed.

End Receiving.

(** X1: the chat of a replica shows, after what it showed before, exactly
    the received chat messages whose sender is not its own display name, in
    the order of arrival; a message that carries the local display name is
    dropped, whoever sent it.  No received message, whiteboard traffic
    included, changes the whiteboard. *)
Theorem chat_shows_the_messages_of_others (ms : list SocketMsg) (s : State) :
  let s' := receive_all ms s in
  chatMessages s' = chatMessages s ++ shown_chat (displayName s) ms
  ∧ Forall (λ data, m_sender data ≠ displayName s
                    ∧ ChatMessage data ∈ ms) (shown_chat (displayName s) ms)
  ∧ (∀ data, ChatMessage data ∈ ms → m_sender data ≠ displayName s →
             data ∈ chatMessages s')
  ∧ same_board s s'.
Proof.
  cbv zeta. destruct (receive_all_effects ms s) as (Hc & _ & _ & _ & Hb).
  split_and!; [done| | |done].
  - apply Forall_forall. intros data Hd.
    apply list_elem_of_omap in Hd as (m & Hm & Heq).
    destruct m; try discriminate. case_match eqn:Hneq; simplify_eq.
    split; [|done]. unfold strict_neq in Hneq. by apply bool_decide_eq_true in Hneq.
  - intros data Hin Hneq. rewrite Hc. apply elem_of_app. right.
    apply list_elem_of_omap. exists (ChatMessage data). split; [done|].
    unfold strict_neq. by rewrite bool_decide_eq_true_2.
Qed.

(** X2: the file list of a replica grows by exactly the received file-share
    messages of other uploaders, in the order of arrival, and each of them
    is stored in [sharedFiles] under its id, a later file replacing an
    earlier one with the same id. *)
Theorem received_files_are_listed_and_stored (ms : list SocketMsg) (s : State) :
  let s' := receive_all ms s in
  let listed := shown_files (displayName s) ms in
  fileList s' = fileList s ++ listed
  ∧ sharedFiles s'
    = foldl (λ files data, <[f_id data := data]> files) (sharedFiles s) listed
  ∧ Forall (λ data, f_uploader data ≠ displayName s ∧ FileShare data ∈ ms) listed
  ∧ (∀ data, last listed = Some data → sharedFiles s' !! f_id data = Some data).
Proof.
  cbv zeta. destruct (receive_all_effects ms s) as (_ & Hf & Hm & _ & _).
  split_and!; [done|done| |].
  - apply Forall_forall. intros data Hd.
    apply list_elem_of_omap in Hd as (m & Hin & Heq).
    destruct m; try discriminate. case_match eqn:Hneq; simplify_eq.
    split; [|done]. unfold strict_neq in Hneq. by apply bool_decide_eq_true in Hneq.
  - intros data Hlast. rewrite Hm.
    apply last_Some in Hlast as [l' ->].
    rewrite foldl_app. cbn. apply lookup_insert_eq.
Qed.

Lemma chat_shows_the_messages_of_others_witness :
  let alice := mkMessageData 1 (JsString "Alice") "hello" 10 false in
  let own := mkMessageData 2 JsNull "echo" 11 true in
  chatMessages (receive_all [ChatMessage own; ChatMessage alice] initial)
  = [alice]
  ∧ alice ∈ chatMessages (receive_all [ChatMessage own; ChatMessage alice] initial).
Proof.
  cbv zeta. split; [reflexivity|].
  apply (chat_shows_the_messages_of_others
           [ChatMessage (mkMessageData 2 JsNull "echo" 11 true);
            ChatMessage (mkMessageData 1 (JsString "Alice") "hello" 10 false)]
           initial).
  - apply elem_of_cons. right. apply elem_of_cons. by left.
  - discriminate.
Defined.

Lemma received_files_are_listed_and_stored_witness :
  let remote := mkFileData 7 "plan.pdf" 100 "application/pdf" "blob:7"
                  (JsString "Bob") in
  sharedFiles (receive_all [FileShare remote] initial) !! 7 = Some remote.
Proof.
  cbv zeta.
  pose proof (received_files_are_listed_and_stored
                [FileShare (mkFileData 7 "plan.pdf" 100 "application/pdf"
                              "blob:7" (JsString "Bob"))] initial) as H.
  cbv zeta in H. destruct H as (_ & _ & _ & H).
  apply (H (mkFileData 7 "plan.pdf" 100 "application/pdf" "blob:7"
              (JsString "Bob"))).
  reflexivity.
Defined.

(** ** The shared files *)

Section SharedFiles.

Implicit Types (s : State) (files : list FileData) (id : Z).

Lemma files_by_id_snoc files fileData :
  files_by_id (files ++ [fileData])
  = <[f_id fileData := fileData]> (files_by_id files).
Proof. unfold files_by_id. by rewrite foldl_app. Qed.

(** Looking an id up gives the file listed last under it. *)
Lemma files_by_id_lookup files id :
  files_by_id files !! id = last (filter (λ fileData, f_id fileData = id) files).
Proof.
  induction files as [|fileData files IH] using rev_ind; [done|].
  rewrite files_by_id_snoc, filter_app, lookup_insert.
  rewrite filter_cons, filter_nil. case_decide as Hid.
  - by rewrite last_snoc.
  - by rewrite app_nil_r.
Qed.

Lemma files_by_id_size files : (size (files_by_id files) ≤ length files)%nat.
Proof.
  induction files as [|fileData files IH] using rev_ind; [done|].
  rewrite files_by_id_snoc, length_app. cbn [length].
  destruct (files_by_id files !! f_id fileData) eqn:Hl.
  - rewrite map_size_insert_Some by done. lia.
  - rewrite map_size_insert_None by done. lia.
Qed.

Lemma after_file_consistent file s :
  files_consistent s → files_consistent (after_file file s).
Proof.
  unfold files_consistent, after_file. intros Hs. case_match; [done|].
  cbn. rewrite files_by_id_snoc. by rewrite Hs.
Qed.

Lemma handleFileUpload_consistent uploads s :
  files_consistent s → files_consistent (exec (handleFileUpload uploads) s).
Proof.
  unfold exec. rewrite handleFileUpload_eq. cbn [snd]. revert s.
  induction uploads as [|file uploads IH]; intros s Hs; [done|].
  cbn [foldl]. by apply IH, after_file_consistent.
Qed.

Lemma dispatch_consistent ev s :
  files_consistent s → files_consistent (exec (dispatch ev) s).
Proof.
  intros Hs. destruct ev as [target_id tool|value|value|e|e| | |uploads];
    cbn [dispatch]; try done.
  - case_bool_decide; done.
  - unfold exec. by rewrite startDrawing_eq.
  - unfold exec. destruct (isDrawing s) eqn:Hd.
    + by rewrite draw_active.
    + by rewrite draw_idle.
  - unfold exec. destruct (isDrawing s) eqn:Hd.
    + by rewrite stopDrawing_active.
    + by rewrite stopDrawing_idle.
  - unfold exec. destruct (isDrawing s) eqn:Hd.
    + by rewrite stopDrawing_active.
    + by rewrite stopDrawing_idle.
  - by apply handleFileUpload_consistent.
Qed.

Lemma perform_consistent a s :
  files_consistent s → files_consistent (exec (perform a) s).
Proof.
  intros Hs. destruct a as [ev|m| |]; cbn [perform].
  - by apply dispatch_consistent.
  - unfold exec. rewrite handleSocketMessage_eq. cbn [snd].
    destruct m; try done; case_match; try done.
    unfold files_consistent in *. cbn. rewrite files_by_id_snoc. by rewrite Hs.
  - done.
  - done.
Qed.

Lemma perform_all_consistent acts s :
  files_consistent s → files_consistent (perform_all acts s).
Proof.
  revert s. induction acts as [|a acts IH]; intros s Hs; [done|].
  apply IH. by apply perform_consistent.
Qed.

End SharedFiles.

(** X3: in every state reached from the initial one, by any sequence of
    listeners, received messages and calls of [clearFiles] and [clearChat],
    [sharedFiles] mirrors the file list: looking an id up gives the file
    listed last under that id, and nothing when no listed file has it; the
    map never holds more entries than the list has items. *)
Theorem shared_files_mirror_the_file_list (acts : list Action) (id : Z) :
  let s := perform_all acts initial in
  sharedFiles s = files_by_id (fileList s)
  ∧ sharedFiles s !! id
    = last (filter (λ fileData, f_id fileData = id) (fileList s))
  ∧ (size (sharedFiles s) ≤ length (fileList s))%nat.
Proof.
  cbv zeta.
  assert (Hs : files_consistent (perform_all acts initial))
    by (by apply perform_all_consistent).
  unfold files_consistent in Hs. rewrite Hs at 1 2 3.
  split_and!; [done|apply files_by_id_lookup|apply files_by_id_size].
Qed.

(** ** Uploading several files *)

Section UploadList.

Implicit Types (s : State) (file : Upload) (uploads : list Upload).

Lemma after_files_effects uploads s :
  let s' := foldl (λ s file, after_file file s) s uploads in
  let accepted := fileData_of (displayName s)
                    <$> filter (λ file, file_size file ≤ MAX_FILE_SIZE) uploads in
  fileList s' = fileList s ++ accepted
  ∧ console s' = console s ++ (LogSocketEmit ∘ FileShare <$> accepted)
  ∧ sharedFiles s'
    = foldl (λ files data, <[f_id data := data]> files) (sharedFiles s) accepted
  ∧ displayName s' = displayName s.
Proof.
  cbv zeta. revert s. induction uploads as [|file uploads IH]; intros s.
  - cbn. by rewrite !app_nil_r.
  - cbn [foldl]. destruct (IH (after_file file s)) as (Hf & Hc & Hm & Hn).
    rewrite Hf, Hc, Hm, Hn. clear IH Hf Hc Hm Hn.
    destruct (after_file_keeps file s) as (-> & _).
    rewrite filter_cons. unfold after_file.
    destruct (Z.gtb_spec (file_size file) MAX_FILE_SIZE).
    + rewrite decide_False by lia. done.
    + rewrite decide_True by lia. cbn. by rewrite <- !app_assoc.
Qed.

End UploadList.

(** X4: after [handleFileUpload(files)] the file list has grown by exactly
    the files of at most 10 * 1024 * 1024 bytes, in their order, each with
    the local display name as uploader; one file-share message has been sent
    for each of them and none for the others; the toast is that of the last
    file of the list; the whiteboard is untouched. *)
Theorem upload_lists_the_accepted_files_in_order
    (uploads : list Upload) (s : State) :
  let s' := exec (handleFileUpload uploads) s in
  let accepted := fileData_of (displayName s)
                    <$> filter (λ file, file_size file ≤ MAX_FILE_SIZE) uploads in
  fileList s' = fileList s ++ accepted
  ∧ new_messages s s' = (LogSocketEmit ∘ FileShare <$> accepted)
  ∧ sharedFiles s'
    = foldl (λ files data, <[f_id data := data]> files) (sharedFiles s) accepted
  ∧ toast s'
    = match last uploads with
      | None => toast s
      | Some file =>
          if decide (file_size file ≤ MAX_FILE_SIZE)
          then Some (("File " ++ dquote ++ file_name file ++ dquote
                      ++ " uploaded")%string, "success")
          else Some ("File too large (max 10MB)", "error")
      end
  ∧ same_board s s'.
Proof.
  cbv zeta. pose proof (handleFileUpload_board uploads s) as Hb.
  unfold exec in *. rewrite handleFileUpload_eq in *. cbn [snd] in *.
  destruct (after_files_effects uploads s) as (Hf & Hc & Hm & _).
  split_and!; [done|by apply new_messages_app|done| |done].
  destruct uploads as [|file uploads _] using rev_ind; [done|].
  rewrite last_snoc, foldl_app. cbn [foldl]. unfold after_file.
  destruct (Z.gtb_spec (file_size file) MAX_FILE_SIZE).
  - by rewrite decide_False by lia.
  - by rewrite decide_True by lia.
Qed.

(** ** Invariants of the whiteboard *)

Section BoardInvariants.

Implicit Types (s : State) (a : Action) (e : MouseEvent).

Lemma path_wf_same_board s s' : same_board s s' → path_wf s' = path_wf s.
Proof. intros (Hd & Hc & _). unfold path_wf. by rewrite Hd, Hc. Qed.

(** What every action does to the console: it adds lines at the end. *)
Lemma perform_console a s :
  ∃ logged, console (exec (perform a) s) = console s ++ logged.
Proof.
  destruct a as [ev|m| |]; cbn [perform].
  - destruct ev as [target_id tool|value|value|e|e| | |uploads]; cbn [dispatch].
    + case_bool_decide; [by eexists|]. exists []. by rewrite app_nil_r.
    + exists []. by rewrite app_nil_r.
    + exists []. by rewrite app_nil_r.
    + exists []. unfold exec. rewrite startDrawing_eq. by rewrite app_nil_r.
    + unfold exec. destruct (isDrawing s) eqn:Hd.
      * rewrite draw_active by done. by eexists.
      * rewrite draw_idle by done. exists []. by rewrite app_nil_r.
    + unfold exec. exists []. rewrite app_nil_r. destruct (isDrawing s) eqn:Hd.
      * by rewrite stopDrawing_active.
      * by rewrite stopDrawing_idle.
    + unfold exec. exists []. rewrite app_nil_r. destruct (isDrawing s) eqn:Hd.
      * by rewrite stopDrawing_active.
      * by rewrite stopDrawing_idle.
    + unfold exec. rewrite handleFileUpload_eq. cbn [snd].
      destruct (after_files_effects uploads s) as (_ & Hc & _). by eexists.
  - unfold exec. rewrite handleSocketMessage_eq. cbn [snd].
    destruct m; repeat case_match; first [by eexists | exists []; by rewrite app_nil_r].
  - exists []. by rewrite app_nil_r.
  - exists []. by rewrite app_nil_r.
Qed.

Lemma announced_mono a s p : announced s p → announced (exec (perform a) s) p.
Proof.
  intros (data & Hin & Hend). exists data. split; [|done].
  destruct (perform_console a s) as [logged Hc].
  unfold draw_messages in *. rewrite Hc, omap_app. apply elem_of_app. by left.
Qed.

Lemma draw_messages_mono a s :
  (length (draw_messages s) ≤ length (draw_messages (exec (perform a) s)))%nat.
Proof.
  destruct (perform_console a s) as [logged Hc].
  unfold draw_messages. rewrite Hc, omap_app, length_app. lia.
Qed.

Lemma last_concat_extend_last p (subpaths : Path) :
  last (concat (Canvas.extend_last p subpaths)) = Some p.
Proof.
  induction subpaths as [|sp [|sp' rest] IH].
  - reflexivity.
  - cbn. rewrite app_nil_r. apply last_snoc.
  - change (Canvas.extend_last p (sp :: sp' :: rest))
      with (sp :: Canvas.extend_last p (sp' :: rest)).
    cbn [concat]. rewrite last_app, IH. done.
Qed.

Lemma perform_path_wf a s :
  path_wf s = true → path_wf (exec (perform a) s) = true.
Proof.
  intros Hwf.
  destruct a as [ev|m| |]; cbn [perform]; try done.
  - destruct ev as [target_id tool|value|value|e|e| | |uploads];
      cbn [dispatch]; try done.
    + by case_bool_decide.
    + unfold exec. rewrite startDrawing_eq. unfold path_wf. cbn.
      by rewrite started_ctx_path.
    + unfold exec. destruct (isDrawing s) eqn:Hd.
      * rewrite draw_active by done. unfold path_wf in *. cbn.
        rewrite Hd in *. destruct (path (ctx s)) as [|[|p pts] [|]]; done.
      * by rewrite draw_idle.
    + unfold exec. destruct (isDrawing s) eqn:Hd.
      * by rewrite stopDrawing_active.
      * by rewrite stopDrawing_idle.
    + unfold exec. destruct (isDrawing s) eqn:Hd.
      * by rewrite stopDrawing_active.
      * by rewrite stopDrawing_idle.
    + rewrite (path_wf_same_board s); [done|apply handleFileUpload_board].
  - rewrite (path_wf_same_board s); [done|apply handleSocketMessage_board].
Qed.

Lemma perform_announced a s :
  Forall (announced s) (surface s)
  ∧ (length (surface s) ≤ length (draw_messages s))%nat →
  Forall (announced (exec (perform a) s)) (surface (exec (perform a) s))
  ∧ (length (surface (exec (perform a) s))
     ≤ length (draw_messages (exec (perform a) s)))%nat.
Proof.
  intros [Hall Hlen].
  assert (Hkeep : surface (exec (perform a) s) = surface s →
                  Forall (announced (exec (perform a) s))
                         (surface (exec (perform a) s))
                  ∧ (length (surface (exec (perform a) s))
                     ≤ length (draw_messages (exec (perform a) s)))%nat).
  { intros ->. split.
    - eapply Forall_impl; [exact Hall|]. intros p. apply announced_mono.
    - pose proof (draw_messages_mono a s). lia. }
  destruct a as [ev|m| |]; try (apply Hkeep; reflexivity).
  - destruct ev as [target_id tool|value|value|e|e| | |uploads];
      try (apply Hkeep; reflexivity).
    + cbn [perform dispatch] in *. case_bool_decide; [|by apply Hkeep].
      unfold exec. rewrite clearWhiteboard_eq. cbn.
      split; [constructor|lia].
    + apply Hkeep. cbn [perform dispatch]. unfold exec. by rewrite startDrawing_eq.
    + destruct (isDrawing s) eqn:Hd.
      * clear Hkeep. cbn [perform dispatch]. unfold exec.
        rewrite draw_active by done. cbn [snd].
        assert (Hmsgs : draw_messages (drawn e s)
                        = draw_messages s
                          ++ [mkDrawData (clientX e - rect_left e)
                                (clientY e - rect_top e) (currentTool s)
                                (currentColor s) (currentBrushSize s) true]).
        { unfold draw_messages. cbn. by rewrite omap_app. }
        split.
        -- cbn. apply Forall_app. split.
           ++ eapply Forall_impl; [exact Hall|]. intros p (data & Hin & Hend).
              exists data. split; [|done]. rewrite Hmsgs. apply elem_of_app. by left.
           ++ constructor; [|constructor]. eexists. split.
              ** rewrite Hmsgs. apply elem_of_app. right. by apply list_elem_of_singleton.
              ** unfold end_point. cbn. apply last_concat_extend_last.
        -- rewrite Hmsgs. cbn. rewrite !length_app. cbn. lia.
      * apply Hkeep. cbn [perform dispatch]. unfold exec. by rewrite draw_idle.
    + apply Hkeep. cbn [perform dispatch]. unfold exec.
      destruct (isDrawing s) eqn:Hd.
      * by rewrite stopDrawing_active.
      * by rewrite stopDrawing_idle.
    + apply Hkeep. cbn [perform dispatch]. unfold exec.
      destruct (isDrawing s) eqn:Hd.
      * by rewrite stopDrawing_active.
      * by rewrite stopDrawing_idle.
    + apply Hkeep. apply handleFileUpload_board.
  - apply Hkeep. apply handleSocketMessage_board.
Qed.

End BoardInvariants.

(** X5: in every state reached from the initial one the current path has
    the shape the drawing flag tells: no subpath at all while no stroke is
    active, and exactly one subpath, with at least its starting point, while
    one is. *)
Theorem path_follows_the_drawing_flag (acts : list Action) :
  path_wf (perform_all acts initial) = true.
Proof.
  assert (Hgen : ∀ s, path_wf s = true → path_wf (perform_all acts s) = true).
  { induction acts as [|a acts IH]; intros s Hs; [done|].
    apply IH. by apply perform_path_wf. }
  by apply Hgen.
Qed.

(** X6: in every state reached from the initial one, every stroke on the
    canvas has been announced: a whiteboard-draw message sent earlier carries
    the coordinates of its end point; there are never more strokes on the
    canvas than whiteboard-draw messages sent. *)
Theorem every_stroke_on_the_canvas_was_sent (acts : list Action) :
  let s := perform_all acts initial in
  Forall (announced s) (surface s)
  ∧ (length (surface s) ≤ length (draw_messages s))%nat.
Proof.
  cbv zeta.
  assert (Hgen : ∀ s,
    Forall (announced s) (surface s)
    ∧ (length (surface s) ≤ length (draw_messages s))%nat →
    Forall (announced (perform_all acts s)) (surface (perform_all acts s))
    ∧ (length (surface (perform_all acts s))
       ≤ length (draw_messages (perform_all acts s)))%nat).
  { induction acts as [|a acts IH]; intros s Hs; [done|].
    apply IH. by apply perform_announced. }
  apply Hgen. split; [apply Forall_nil_2|vm_compute; constructor].
Qed.

(** ** The strokes of a gesture *)

Section GestureStrokes.

Implicit Types (s : State) (e : MouseEvent) (moves : list MouseEvent).

Lemma gesture_stroke_cons c start e moves k :
  gesture_stroke c start (e :: moves) (S k)
  = gesture_stroke c (start ++ [canvas_point e]) moves k.
Proof. unfold gesture_stroke. cbn. by rewrite <- app_assoc. Qed.

Lemma moves_strokes moves s start :
  isDrawing s = true →
  path (ctx s) = [start] →
  let s' := run (MouseMove <$> moves) s in
  surface s'
  = surface s ++ (gesture_stroke (ctx s) start moves <$> seq 0 (length moves))
  ∧ console s'
    = console s ++ ((λ e, LogSocketEmit (draw_message e s)) <$> moves)
  ∧ path (ctx s') = [start ++ (canvas_point <$> moves)]
  ∧ isDrawing s' = true.
Proof.
  cbv zeta. revert s start.
  induction moves as [|e moves IH]; intros s start Hact Hpath.
  - cbn. by rewrite !app_nil_r.
  - rewrite fmap_cons, run_cons, exec_draw_active by done.
    destruct (IH (drawn e s) (start ++ [canvas_point e])) as (Hs & Hc & Hp & Hd).
    { done. }
    { cbn. by rewrite Hpath. }
    rewrite Hs, Hc, Hp, Hd. clear IH Hs Hc Hp Hd.
    split_and!; [| | |done].
    + cbn [length seq fmap list_fmap]. rewrite <- fmap_S_seq, <- list_fmap_compose.
      cbn [drawn surface set_console set_surface set_ctx]. rewrite <- app_assoc.
      f_equal. cbn [app]. f_equal.
      * unfold Canvas.stroked, gesture_stroke. cbn. by rewrite Hpath.
      * apply list_fmap_ext. intros _ k _. cbn. by rewrite gesture_stroke_cons.
    + cbn. by rewrite <- app_assoc.
    + cbn. by rewrite <- app_assoc.
Qed.

Lemma started_ctx_width e s :
  0 < currentBrushSize s →
  lineWidth (started_ctx e s)
  = if bool_decide (currentTool s = "eraser")
    then currentBrushSize s * 3 else currentBrushSize s.
Proof.
  intros Hsize. unfold started_ctx, Canvas.set_lineWidth.
  case_bool_decide.
  - destruct (Z.ltb_spec 0 (currentBrushSize s * 3)); [done|lia].
  - destruct (Z.ltb_spec 0 (currentBrushSize s)); [done|lia].
Qed.

Lemma exec_startDrawing e s :
  exec (dispatch (MouseDown e)) s
  = set_ctx (started_ctx e s) (set_isDrawing true s).
Proof. unfold exec. cbn [dispatch]. by rewrite startDrawing_eq. Qed.

Lemma gesture_exact e moves s :
  let s' := run (MouseDown e :: (MouseMove <$> moves)) s in
  surface s'
  = surface s ++ (gesture_stroke (started_ctx e s) [canvas_point e] moves
                    <$> seq 0 (length moves))
  ∧ console s'
    = console s ++ ((λ m, LogSocketEmit (draw_message m s)) <$> moves)
  ∧ path (ctx s') = [canvas_point e :: (canvas_point <$> moves)]
  ∧ isDrawing s' = true.
Proof.
  cbv zeta. rewrite run_cons, exec_startDrawing.
  set (s0 := set_ctx (started_ctx e s) (set_isDrawing true s)).
  destruct (moves_strokes moves s0 [canvas_point e]) as (Hs & Hc & Hp & Hd).
  { done. }
  { apply started_ctx_path. }
  by split_and!.
Qed.

End GestureStrokes.

(** X7: in a gesture (a pointer-down, then pointer moves) every move strokes
    the whole path again, from the point of the pointer-down to the point of
    that move, so the stroke of move number [k] has [k + 2] points; every
    stroke has the compositing, style and width set at the pointer-down.
    One message is sent per move, with the canvas coordinates of the move
    (client coordinates minus the origin of the canvas) and the tool, colour
    and brush size selected. *)
Theorem gesture_strokes_the_whole_path_at_every_move
    (s : State) (e : MouseEvent) (moves : list MouseEvent) :
  let s' := run (MouseDown e :: (MouseMove <$> moves)) s in
  new_strokes s s'
  = (gesture_stroke (started_ctx e s) [canvas_point e] moves
       <$> seq 0 (length moves))
  ∧ new_messages s s' = ((λ m, LogSocketEmit (draw_message m s)) <$> moves)
  ∧ path (ctx s') = [canvas_point e :: (canvas_point <$> moves)]
  ∧ isDrawing s' = true.
Proof.
  cbv zeta. destruct (gesture_exact e moves s) as (Hs & Hc & Hp & Hd).
  split_and!; [by apply new_strokes_app|by apply new_messages_app|done|done].
Qed.

(** X8: the eraser is three times as wide as the pen: with a positive brush
    size, every stroke of a gesture begun with the eraser has three times
    the brush size as width, every stroke of a gesture begun with any other
    tool has the brush size; the messages carry the brush size itself in
    both cases. *)
Theorem eraser_strokes_are_three_times_as_wide
    (s : State) (e : MouseEvent) (moves : list MouseEvent) :
  0 < currentBrushSize s →
  let s' := run (MouseDown e :: (MouseMove <$> moves)) s in
  Forall (λ p, p_width p = if bool_decide (currentTool s = "eraser")
                           then currentBrushSize s * 3
                           else currentBrushSize s) (new_strokes s s')
  ∧ Forall (λ entry, ∃ data, entry = LogSocketEmit (WhiteboardDraw data)
                             ∧ d_size data = currentBrushSize s)
           (new_messages s s').
Proof.
  intros Hsize. cbv zeta.
  destruct (gesture_exact e moves s) as (Hs & Hc & _).
  rewrite (new_strokes_app _ _ _ Hs), (new_messages_app _ _ _ Hc).
  split.
  - apply Forall_fmap, Forall_forall. intros k _. cbn.
    by apply started_ctx_width.
  - apply Forall_fmap, Forall_forall. intros m _. cbn. by eexists.
Qed.

Lemma eraser_strokes_are_three_times_as_wide_witness :
  let s := run [BrushSizeInput 5; ToolBtnClick "eraserBtn" "eraser"] initial in
  let s' := run [MouseDown (mkMouseEvent 10 10 0 0);
                 MouseMove (mkMouseEvent 20 20 0 0)] s in
  0 < currentBrushSize s
  ∧ Forall (λ p, p_width p = 15) (new_strokes s s').
Proof.
  cbv zeta. split; [reflexivity|].
  apply (eraser_strokes_are_three_times_as_wide
           (run [BrushSizeInput 5; ToolBtnClick "eraserBtn" "eraser"] initial)
           (mkMouseEvent 10 10 0 0) [mkMouseEvent 20 20 0 0]).
  reflexivity.
Defined.

(** ** Settings and clears during a stroke *)

Section DuringAStroke.

Implicit Types (s : State) (e : MouseEvent) (ev : UiEvent).


Lemma exec_clear ev s :
  is_clear ev = true →
  exec (dispatch ev) s
  = set_toast (Some ("Whiteboard cleared", "info"))
      (set_console (console s ++ [LogSocketEmit WhiteboardClear])
         (set_surface [] s)).
Proof.
  destruct ev; try discriminate. cbn [is_clear dispatch]. intros ->.
  unfold exec. by rewrite clearWhiteboard_eq.
Qed.

End DuringAStroke.



(** X10: clearing the board does not end the stroke in progress: the stroke
    stays active and the context keeps its path, so the next move paints,
    on the cleared canvas, the whole path again, the points from before the
    clear included. *)
Theorem clear_during_a_stroke_keeps_the_path
    (s : State) (clear : UiEvent) (e : MouseEvent) :
  isDrawing s = true →
  is_clear clear = true →
  let s' := run [clear; MouseMove e] s in
  isDrawing s' = true
  ∧ path (ctx s') = Canvas.extend_last (canvas_point e) (path (ctx s))
  ∧ surface s'
    = [mkPainted (Canvas.extend_last (canvas_point e) (path (ctx s)))
         (globalCompositeOperation (ctx s)) (strokeStyle (ctx s))
         (lineWidth (ctx s))].
Proof.
  intros Hact Hclear. cbv zeta.
  rewrite !run_cons, (exec_clear _ _ Hclear), exec_draw_active by done.
  by split_and!.
Qed.

Lemma clear_during_a_stroke_keeps_the_path_witness :
  let s := run [MouseDown (mkMouseEvent 10 10 0 0);
                MouseMove (mkMouseEvent 20 20 0 0)] initial in
  let s' := run [ToolBtnClick "clearBoard" "clear";
                 MouseMove (mkMouseEvent 30 5 0 0)] s in
  isDrawing s = true
  ∧ surface s'
    = [mkPainted [[mkPoint 10 10; mkPoint 20 20; mkPoint 30 5]]
         "source-over" "#000000" 3].
Proof.
  cbv zeta. split; [reflexivity|].
  apply (clear_during_a_stroke_keeps_the_path
           (run [MouseDown (mkMouseEvent 10 10 0 0);
                 MouseMove (mkMouseEvent 20 20 0 0)] initial)
           (ToolBtnClick "clearBoard" "clear") (mkMouseEvent 30 5 0 0));
    reflexivity.
Defined.

(** X11: pointer moves, pointer-ups and pointer-outs that arrive while no
    stroke is active change nothing at all; hence a pointer-up followed by
    any number of them, a pointer-out for one, is the same as the pointer-up
    alone. *)
Theorem pointer_events_outside_a_gesture_do_nothing
    (s : State) (evs : list UiEvent) :
  Forall (λ ev, outside_gesture ev = true) evs →
  (isDrawing s = false → run evs s = s)
  ∧ run (MouseUp :: evs) s = run [MouseUp] s
  ∧ run (MouseOut :: evs) s = run [MouseUp] s.
Proof.
  intros Hevs.
  assert (Hidle : ∀ s0, isDrawing s0 = false → run evs s0 = s0).
  { induction Hevs as [|ev evs Hev _ IH]; intros s0 Hs0; [done|].
    rewrite run_cons.
    assert (exec (dispatch ev) s0 = s0) as ->; [|by apply IH].
    destruct ev; try discriminate; unfold exec; cbn [dispatch].
    - by rewrite draw_idle.
    - by rewrite stopDrawing_idle.
    - by rewrite stopDrawing_idle. }
  split_and!; [by apply Hidle|..];
    rewrite !run_cons; cbn [run foldl]; apply Hidle;
    unfold exec; cbn [dispatch]; destruct (isDrawing s) eqn:Hd;
    first [by rewrite stopDrawing_active | by rewrite stopDrawing_idle].
Qed.

Lemma pointer_events_outside_a_gesture_do_nothing_witness :
  let s := run [MouseDown (mkMouseEvent 10 10 0 0);
                MouseMove (mkMouseEvent 20 20 0 0)] initial in
  run [MouseUp; MouseOut; MouseMove (mkMouseEvent 30 30 0 0)] s = run [MouseUp] s.
Proof.
  cbv zeta.
  assert (Hevs : Forall (λ ev, outside_gesture ev = true)
                   [MouseOut; MouseMove (mkMouseEvent 30 30 0 0)])
    by (repeat constructor).
  destruct (pointer_events_outside_a_gesture_do_nothing
              (run [MouseDown (mkMouseEvent 10 10 0 0);
                    MouseMove (mkMouseEvent 20 20 0 0)] initial)
              [MouseOut; MouseMove (mkMouseEvent 30 30 0 0)] Hevs)
    as (_ & Hup & _).
  exact Hup.
Defined.

(** ** The whiteboard and the rest of the session *)

Section Separation.

Implicit Types (s : State) (ev : UiEvent) (a : Action).

Lemma same_board_sym s s' : same_board s s' → same_board s' s.
Proof. intros (?&?&?&?&?&?). by repeat split. Qed.

(** A whiteboard listener run on two states with the same whiteboard leaves
    them with the same whiteboard. *)
Lemma dispatch_same_board ev s1 s2 :
  (∀ uploads, ev ≠ FileInputChange uploads) →
  same_board s1 s2 →
  same_board (exec (dispatch ev) s1) (exec (dispatch ev) s2).
Proof.
  intros Hev (Hd & Hc & Hs & Ht & Hcol & Hb).
  destruct ev as [target_id tool|value|value|e|e| | |uploads]; cbn [dispatch].
  - case_bool_decide.
    + unfold exec. rewrite !clearWhiteboard_eq. repeat split; cbn; congruence.
    + repeat split; cbn; congruence.
  - repeat split; cbn; congruence.
  - repeat split; cbn; congruence.
  - unfold exec. rewrite !startDrawing_eq. unfold started_ctx.
    repeat split; cbn; try congruence. by rewrite Hc, Ht, Hcol, Hb.
  - unfold exec. destruct (isDrawing s1) eqn:Hd1.
    + rewrite !draw_active by congruence.
      repeat split; cbn; congruence.
    + rewrite !draw_idle by congruence. repeat split; cbn; congruence.
  - unfold exec. destruct (isDrawing s1) eqn:Hd1.
    + rewrite !stopDrawing_active by congruence.
      repeat split; cbn; congruence.
    + rewrite !stopDrawing_idle by congruence. repeat split; cbn; congruence.
  - unfold exec. destruct (isDrawing s1) eqn:Hd1.
    + rewrite !stopDrawing_active by congruence.
      repeat split; cbn; congruence.
    + rewrite !stopDrawing_idle by congruence. repeat split; cbn; congruence.
  - by destruct (Hev uploads).
Qed.

Lemma perform_board_events acts s1 s2 :
  same_board s1 s2 →
  same_board (run (board_events acts) s1) (perform_all acts s2).
Proof.
  revert s1 s2. induction acts as [|a acts IH]; intros s1 s2 Hsame; [done|].
  change (perform_all (a :: acts) s2)
    with (perform_all acts (exec (perform a) s2)).
  destruct a as [ev|m| |].
  - destruct ev as [target_id tool|value|value|e|e| | |uploads];
      try (change (board_events (Ui ?ev :: acts))
             with (ev :: board_events acts);
           rewrite run_cons; apply IH, dispatch_same_board; done).
    change (board_events (Ui (FileInputChange uploads) :: acts))
      with (board_events acts).
    apply IH. eapply same_board_trans; [exact Hsame|].
    apply handleFileUpload_board.
  - change (board_events (Receive m :: acts)) with (board_events acts).
    apply IH. eapply same_board_trans; [exact Hsame|].
    apply handleSocketMessage_board.
  - apply IH. eapply same_board_trans; [exact Hsame|]. by repeat split.
  - apply IH. eapply same_board_trans; [exact Hsame|]. by repeat split.
Qed.

End Separation.

(** X12: the whiteboard depends only on the whiteboard events: after any
    session, the drawing flag, the context, the canvas and the selected
    tool, colour and brush size are those the whiteboard events of the
    session alone would have left; uploads, received messages (whiteboard
    traffic included) and the clearing of the chat and of the files change
    none of them. *)
Theorem whiteboard_depends_only_on_its_events (acts : list Action) (s : State) :
  same_board (run (board_events acts) s) (perform_all acts s).
Proof. apply perform_board_events, same_board_refl. Qed.

(** ** Sending chat messages *)

Section Chat.

Implicit Types (σ : Session) (trim : string → string).

Lemma sendMessage_blank trim now date σ :
  trim (chatInput σ) = EmptyString → sendMessage trim now date σ = σ.
Proof. intros Hblank. unfold sendMessage. by rewrite bool_decide_eq_true_2. Qed.

(** The controller after a message has been added to the chat and emitted:
    the echo is recognised by its sender and not added again. *)
Lemma add_and_emit_own messageData s :
  m_sender messageData = displayName s →
  exec (addChatMessage messageData ;; socket_emit (ChatMessage messageData)) s
  = set_console (console s ++ [LogSocketEmit (ChatMessage messageData)])
      (set_chatMessages (chatMessages s ++ [messageData]) s).
Proof.
  intros Hown. unfold socket_emit, handleSocketMessage. unfold_m. cbn.
  unfold strict_neq. rewrite bool_decide_eq_false_2; [done|].
  intros Hne. by apply Hne.
Qed.

End Chat.

(** X13: [sendMessage] does nothing at all when the input, once trimmed, is
    empty (the input keeps its value).  Otherwise the message is shown
    exactly once, as the user's own, with the trimmed text: the echo of the
    socket does not add it a second time; one chat-message is sent, the
    input is emptied and one simulated response is scheduled.  The
    whiteboard and the files are untouched. *)
Theorem sent_message_is_shown_once
    (trim : string → string) (now date : Z) (σ : Session) :
  let σ' := sendMessage trim now date σ in
  let messageData :=
    mkMessageData now (displayName (app_state σ)) (trim (chatInput σ)) date true in
  (trim (chatInput σ) = EmptyString → σ' = σ)
  ∧ (trim (chatInput σ) ≠ EmptyString →
       chatMessages (app_state σ') = chatMessages (app_state σ) ++ [messageData]
       ∧ new_messages (app_state σ) (app_state σ')
         = [LogSocketEmit (ChatMessage messageData)]
       ∧ chatInput σ' = EmptyString
       ∧ responseTimers σ' = responseTimers σ ++ [trim (chatInput σ)]
       ∧ same_board (app_state σ) (app_state σ')
       ∧ fileList (app_state σ') = fileList (app_state σ)
       ∧ sharedFiles (app_state σ') = sharedFiles (app_state σ)).
Proof.
  cbv zeta. split; [apply sendMessage_blank|].
  intros Hmsg. unfold sendMessage. rewrite bool_decide_eq_false_2 by done.
  cbn [app_state chatInput responseTimers].
  rewrite add_and_emit_own by done.
  split_and!; try done. by apply new_messages_app.
Qed.

Lemma sent_message_is_shown_once_witness :
  let σ := mkSession initial None [] true true " hi " [] true false [] [] in
  let trim := λ text : string, if bool_decide (text = " hi ") then "hi" else text in
  trim (chatInput σ) ≠ EmptyString
  ∧ chatMessages (app_state (sendMessage trim 1000 2000 σ))
    = [mkMessageData 1000 JsNull "hi" 2000 true].
Proof.
  cbv zeta.
  assert (Hmsg : (if bool_decide (" hi " = " hi ") then "hi" else " hi ")
                 ≠ EmptyString) by (vm_compute; discriminate).
  split; [exact Hmsg|].
  pose proof (sent_message_is_shown_once
                (λ text : string, if bool_decide (text = " hi ") then "hi" else text)
                1000 2000
                (mkSession initial None [] true true " hi " [] true false [] []))
    as H.
  cbv zeta in H. destruct H as [_ H].
  destruct (H Hmsg) as (Hchat & _). exact Hchat.
Defined.

(** X14: sending twice in a row sends once: after [sendMessage] the input is
    empty, so a second [sendMessage] before the user types again does
    nothing ([trim] leaves the empty string empty). *)
Theorem sending_twice_sends_once
    (trim : string → string) (now now' date date' : Z) (σ : Session) :
  trim EmptyString = EmptyString →
  sendMessage trim now' date' (sendMessage trim now date σ)
  = sendMessage trim now date σ.
Proof.
  intros Htrim. apply sendMessage_blank.
  unfold sendMessage. case_bool_decide as Hblank; [done|].
  cbn [chatInput]. exact Htrim.
Qed.

Lemma sending_twice_sends_once_witness :
  let σ := mkSession initial None [] true true "hello" [] true false [] [] in
  sendMessage id 1001 2001 (sendMessage id 1000 2000 σ)
  = sendMessage id 1000 2000 σ.
Proof.
  cbv zeta.
  apply (sending_twice_sends_once id 1000 1001 2000 2001
           (mkSession initial None [] true true "hello" [] true false [] [])).
  reflexivity.
Defined.

(** ** The end of the call *)

Section EndCall.

Implicit Types (σ : Session) (s : State).

Lemma endCall_app_state s :
  exec (clearChat ;; clearWhiteboard ;; clearFiles ;;
        showToast "Call ended" "info") s
  = set_toast (Some ("Call ended", "info"))
      (set_sharedFiles ∅
         (set_fileList []
            (set_console (console s ++ [LogSocketEmit WhiteboardClear])
               (set_surface [] (set_chatMessages [] s))))).
Proof. reflexivity. Qed.

Lemma track_enabled_stop k (tracks : list Track) :
  enabled <$> head (filter (λ t, kind t = k) (stop_track <$> tracks))
  = enabled <$> head (filter (λ t, kind t = k) tracks).
Proof.
  induction tracks as [|t tracks IH]; [done|].
  rewrite fmap_cons, !filter_cons. cbn [stop_track kind].
  case_decide; [done|exact IH].
Qed.

End EndCall.

(** X15: [endCall] leaves nothing of the call on the page: the chat, the
    file list, [sharedFiles], the canvas, the participants, the remote
    videos and the peers are empty, every track of the local stream has been
    stopped, the main view is hidden and the join dialog shown.  It sends
    one whiteboard-clear and the toast that remains is "Call ended", not
    "Whiteboard cleared". *)
Theorem end_of_call_clears_the_page (σ : Session) (id : Z) :
  let σ' := endCall σ in
  chatMessages (app_state σ') = []
  ∧ fileList (app_state σ') = []
  ∧ sharedFiles (app_state σ') !! id = None
  ∧ surface (app_state σ') = []
  ∧ participants σ' = [] ∧ remoteVideos σ' = [] ∧ peers σ' = []
  ∧ (∀ tracks, localStream σ' = Some tracks →
               Forall (λ t, stopped t = true) tracks)
  ∧ mainAppHidden σ' = true ∧ authModalHidden σ' = false
  ∧ toast (app_state σ') = Some ("Call ended", "info")
  ∧ new_messages (app_state σ) (app_state σ') = [LogSocketEmit WhiteboardClear].
Proof.
  cbv zeta. unfold endCall. cbn [app_state participants remoteVideos peers
    localStream mainAppHidden authModalHidden].
  rewrite endCall_app_state.
  split_and!; try done.
  - intros tracks Htracks. destruct (localStream σ) as [tracks0|]; [|done].
    cbn in Htracks. simplify_eq. apply Forall_fmap, Forall_forall. by intros t _.
  - by apply new_messages_app.
Qed.

Lemma end_of_call_clears_the_page_witness :
  let σ := mkSession initial
             (Some [mkTrack "audio" true false; mkTrack "video" false false])
             [] false true "draft" ["hello"] true false ["video-0"]
             [mkParticipant "local" "Ann" true] in
  localStream (endCall σ)
  = Some [mkTrack "audio" true true; mkTrack "video" false true]
  ∧ Forall (λ t, stopped t = true)
           [mkTrack "audio" true true; mkTrack "video" false true].
Proof.
  cbv zeta. split; [reflexivity|].
  apply (end_of_call_clears_the_page
           (mkSession initial
              (Some [mkTrack "audio" true false; mkTrack "video" false false])
              [] false true "draft" ["hello"] true false ["video-0"]
              [mkParticipant "local" "Ann" true]) 0).
  reflexivity.
Defined.

(** X16: what [endCall] does not reset: the display name, the stroke in
    progress (drawing flag and current path), the selected tool, colour and
    brush size, the video and audio flags, the text typed in the chat input
    and the scheduled responses all survive the end of the call; the local
    stream is not dropped either: it keeps all its tracks, in their order,
    each with its kind and its [enabled] attribute (every one of them, not
    only the first of a kind); what changes is that they are stopped. *)
Theorem end_of_call_keeps_the_settings (σ : Session) (k : string) :
  let σ' := endCall σ in
  displayName (app_state σ') = displayName (app_state σ)
  ∧ isDrawing (app_state σ') = isDrawing (app_state σ)
  ∧ ctx (app_state σ') = ctx (app_state σ)
  ∧ currentTool (app_state σ') = currentTool (app_state σ)
  ∧ currentColor (app_state σ') = currentColor (app_state σ)
  ∧ currentBrushSize (app_state σ') = currentBrushSize (app_state σ)
  ∧ isVideoEnabled σ' = isVideoEnabled σ
  ∧ isAudioEnabled σ' = isAudioEnabled σ
  ∧ chatInput σ' = chatInput σ
  ∧ responseTimers σ' = responseTimers σ
  ∧ length <$> localStream σ' = length <$> localStream σ
  ∧ track_enabled k σ' = track_enabled k σ
  ∧ (λ tracks : list Track, (λ t, (kind t, enabled t)) <$> tracks)
      <$> localStream σ'
    = (λ tracks : list Track, (λ t, (kind t, enabled t)) <$> tracks)
        <$> localStream σ
  ∧ localStream σ'
    = (λ tracks : list Track, stop_track <$> tracks) <$> localStream σ.
Proof.
  cbv zeta. unfold endCall, track_enabled.
  cbn [app_state isVideoEnabled isAudioEnabled chatInput responseTimers
       localStream].
  rewrite endCall_app_state.
  split_and!; try done.
  - destruct (localStream σ) as [tracks|]; [|done]. cbn.
    by rewrite length_fmap.
  - destruct (localStream σ) as [tracks|]; [|done]. cbn.
    apply track_enabled_stop.
  - destruct (localStream σ) as [tracks|]; [|done]. cbn. f_equal.
    rewrite <- list_fmap_compose. by apply list_fmap_ext.
Qed.

(** ** Camera and microphone *)

Section Toggles.

Implicit Types (σ : Session) (k : string) (tracks : list Track).

Lemma toggle_first_None k tracks :
  toggle_first k tracks = None →
  head (filter (λ t, kind t = k) tracks) = None.
Proof.
  induction tracks as [|t tracks IH]; [done|]. cbn [toggle_first].
  rewrite filter_cons. case_bool_decide as Hk.
  - discriminate.
  - rewrite decide_False by done.
    destruct (toggle_first k tracks) as [[rest' b]|]; [discriminate|]. auto.
Qed.

Lemma toggle_first_Some k tracks tracks' on :
  toggle_first k tracks = Some (tracks', on) →
  enabled <$> head (filter (λ t, kind t = k) tracks) = Some (negb on)
  ∧ enabled <$> head (filter (λ t, kind t = k) tracks') = Some on
  ∧ (∀ k', k' ≠ k →
       filter (λ t, kind t = k') tracks' = filter (λ t, kind t = k') tracks)
  ∧ toggle_first k tracks' = Some (tracks, negb on).
Proof.
  revert tracks'. induction tracks as [|t tracks IH]; intros tracks'; [done|].
  cbn [toggle_first]. case_bool_decide as Hk.
  - intros [= <- <-]. rewrite !filter_cons. cbn [kind].
    rewrite !decide_True by done. cbn [toggle_first kind enabled stopped].
    rewrite bool_decide_eq_true_2 by done. rewrite !negb_involutive.
    split_and!; try done.
    + intros k' Hk'. rewrite !filter_cons. cbn [kind].
      assert (kind t ≠ k') by congruence.
      rewrite !decide_False; done.
    + by destruct t.
  - destruct (toggle_first k tracks) as [[rest' b]|] eqn:Hrest; [|discriminate].
    cbn. intros [= <- <-].
    destruct (IH rest' eq_refl) as (H1 & H2 & H3 & H4).
    rewrite !filter_cons. rewrite !decide_False; [|done..].
    cbn [toggle_first]. rewrite bool_decide_eq_false_2 by done. rewrite H4.
    split_and!; try done.
    intros k' Hk'. rewrite !filter_cons. rewrite (H3 k' Hk'). done.
Qed.

(** The stream after a toggle: the tracks before the first one of the kind
    and those after it are the same; that one has its [enabled] attribute
    inverted and nothing else changed. *)
Lemma toggle_first_split k tracks tracks' on :
  toggle_first k tracks = Some (tracks', on) →
  ∃ before t after,
    tracks = before ++ t :: after
    ∧ Forall (λ u, kind u ≠ k) before
    ∧ kind t = k
    ∧ enabled t = negb on
    ∧ tracks' = before ++ mkTrack (kind t) on (stopped t) :: after.
Proof.
  revert tracks'. induction tracks as [|t tracks IH]; intros tracks'; [done|].
  cbn [toggle_first]. case_bool_decide as Hk.
  - intros [= <- <-]. exists [], t, tracks. cbn.
    split_and!; try done. by rewrite negb_involutive.
  - destruct (toggle_first k tracks) as [[rest' b]|] eqn:Hrest; [|discriminate].
    cbn. intros [= <- <-].
    destruct (IH rest' eq_refl) as (before & u & after & -> & Hb & Hu & He & ->).
    exists (t :: before), u, after. cbn. split_and!; try done.
    by constructor.
Qed.

End Toggles.

(** X17: the camera button acts on the first video track of the local
    stream: without a stream or without a video track it does nothing (no
    toast either); otherwise it inverts the [enabled] attribute of that
    track and sets [isVideoEnabled] to the new value, whatever the flag was
    before, and leaves everything else of the stream alone: the tracks
    before and after that one are unchanged, so every track of another kind,
    every audio track in particular, is as it was, and so is the audio
    flag; pressing the button twice restores the stream.  The microphone
    button does the same with the first audio track and [isAudioEnabled]. *)
Theorem mute_flags_follow_the_tracks (σ : Session) :
  match track_enabled "video" σ with
  | None => toggleVideo σ = σ
  | Some on =>
      track_enabled "video" (toggleVideo σ) = Some (negb on)
      ∧ isVideoEnabled (toggleVideo σ) = negb on
      ∧ track_enabled "audio" (toggleVideo σ) = track_enabled "audio" σ
      ∧ isAudioEnabled (toggleVideo σ) = isAudioEnabled σ
      ∧ toast (app_state (toggleVideo σ))
        = Some (if negb on then "Video enabled" else "Video disabled", "info")
      ∧ localStream (toggleVideo (toggleVideo σ)) = localStream σ
      ∧ isVideoEnabled (toggleVideo (toggleVideo σ)) = on
      ∧ (∃ before t after,
           localStream σ = Some (before ++ t :: after)
           ∧ Forall (λ u, kind u ≠ "video") before
           ∧ kind t = "video" ∧ enabled t = on
           ∧ localStream (toggleVideo σ)
             = Some (before ++ mkTrack (kind t) (negb on) (stopped t) :: after))
      ∧ (∀ k, k ≠ "video" →
           filter (λ t, kind t = k) <$> localStream (toggleVideo σ)
           = filter (λ t, kind t = k) <$> localStream σ)
  end
  ∧ match track_enabled "audio" σ with
    | None => toggleAudio σ = σ
    | Some on =>
        track_enabled "audio" (toggleAudio σ) = Some (negb on)
        ∧ isAudioEnabled (toggleAudio σ) = negb on
        ∧ track_enabled "video" (toggleAudio σ) = track_enabled "video" σ
        ∧ isVideoEnabled (toggleAudio σ) = isVideoEnabled σ
        ∧ toast (app_state (toggleAudio σ))
          = Some (if negb on then "Audio enabled" else "Audio disabled", "info")
        ∧ localStream (toggleAudio (toggleAudio σ)) = localStream σ
        ∧ isAudioEnabled (toggleAudio (toggleAudio σ)) = on
        ∧ (∃ before t after,
             localStream σ = Some (before ++ t :: after)
             ∧ Forall (λ u, kind u ≠ "audio") before
             ∧ kind t = "audio" ∧ enabled t = on
             ∧ localStream (toggleAudio σ)
               = Some (before ++ mkTrack (kind t) (negb on) (stopped t) :: after))
        ∧ (∀ k, k ≠ "audio" →
             filter (λ t, kind t = k) <$> localStream (toggleAudio σ)
             = filter (λ t, kind t = k) <$> localStream σ)
    end.
Proof.
  unfold track_enabled, toggleVideo, toggleAudio.
  destruct (localStream σ) as [tracks|] eqn:Hstream; [|done]. cbn [mbind option_bind].
  split.
  - destruct (toggle_first "video" tracks) as [[tracks' on']|] eqn:Htoggle.
    + destruct (toggle_first_Some _ _ _ _ Htoggle) as (H1 & H2 & H3 & H4).
      destruct (toggle_first_split _ _ _ _ Htoggle)
        as (before & t & after & Htracks & Hbefore & Hkind & Hen & Htracks').
      rewrite H1. cbn [localStream isVideoEnabled isAudioEnabled app_state].
      cbn [mbind option_bind]. rewrite H2, H4, negb_involutive.
      rewrite (H3 "audio") by done.
      split_and!; try done; try (by destruct on').
      * exists before, t, after. by split_and!; f_equal.
      * intros k Hk. cbn. f_equal. by apply H3.
    + by rewrite (toggle_first_None _ _ Htoggle).
  - destruct (toggle_first "audio" tracks) as [[tracks' on']|] eqn:Htoggle.
    + destruct (toggle_first_Some _ _ _ _ Htoggle) as (H1 & H2 & H3 & H4).
      destruct (toggle_first_split _ _ _ _ Htoggle)
        as (before & t & after & Htracks & Hbefore & Hkind & Hen & Htracks').
      rewrite H1. cbn [localStream isVideoEnabled isAudioEnabled app_state].
      cbn [mbind option_bind]. rewrite H2, H4, negb_involutive.
      rewrite (H3 "video") by done.
      split_and!; try done; try (by destruct on').
      * exists before, t, after. by split_and!; f_equal.
      * intros k Hk. cbn. f_equal. by apply H3.
    + by rewrite (toggle_first_None _ _ Htoggle).
Qed.

(** ** The compositing of a stroke *)

Section StrokeCompositing.

Implicit Types (s : State) (e : MouseEvent) (ev : UiEvent).



Lemma gesture_stroke_attributes c start moves k :
  p_composite (gesture_stroke c start moves k) = globalCompositeOperation c
  ∧ p_style (gesture_stroke c start moves k) = strokeStyle c.
Proof. done. Qed.


End StrokeCompositing.




Lemma mute_flags_follow_the_tracks_witness :
  let σ := mkSession initial
             (Some [mkTrack "audio" true false; mkTrack "video" true false;
                    mkTrack "audio" false false; mkTrack "video" false false])
             [] true true "draft" [] true false [] [] in
  "audio" ≠ "video"
  ∧ filter (λ t, kind t = "audio") <$> localStream (toggleVideo σ)
    = filter (λ t, kind t = "audio") <$> localStream σ
  ∧ localStream (toggleVideo σ)
    = Some [mkTrack "audio" true false; mkTrack "video" false false;
            mkTrack "audio" false false; mkTrack "video" false false].
Proof.
  cbv zeta. split; [discriminate|]. split; [|reflexivity].
  set (σ0 := mkSession initial
               (Some [mkTrack "audio" true false; mkTrack "video" true false;
                      mkTrack "audio" false false; mkTrack "video" false false])
               [] true true "draft" [] true false [] []).
  pose proof (mute_flags_follow_the_tracks σ0) as [H _].
  change (track_enabled "video" σ0) with (Some true) in H.
  cbv beta iota in H.
  destruct H as (_ & _ & _ & _ & _ & _ & _ & _ & H).
  apply H. discriminate.
Defined.
